(** * apiRequest: the fetch wrapper of the UI client

    A shallow embedding of [src/lib/client/api-fetch-request/index.ts]
    (the function [apiRequest]) and of the part of the build
    configuration that resolves the [__HONO_DOMAIN__] placeholder.

    The function is glue around primitives of the platform, which are
    modelled here after their standards: [JSON.stringify], [JSON.parse]
    and object spread (ECMAScript), [URLSearchParams] (URL Standard),
    [fetch] and [Response] (Fetch Standard).

    Conventions of the model.
    - A JavaScript string is the list of the bytes of its UTF-8 encoding
      ([jsstring]); on ASCII text a byte is a character.  Strings with
      lone surrogates are outside of the model.
    - A JavaScript object used as a mapping is the list of its own
      enumerable string-keyed properties, in the order [Object.keys]
      enumerates them ([Obj.obj]).
    - A finite number is its shortest decimal representation
      ([Number.number]): the digits [s], and the position [n] of the
      decimal point, of Number::toString.  There is one zero, and rounding
      to double precision is not modelled.
    - A payload is a JSON value ([JSON.json]): what [JSON.parse] can
      return.
    - An [async] function is the tree of its effects ([Async]); awaiting
      the transport is a node that carries the URL and the options.  The
      transport is a parameter of the run. *)

From Stdlib Require Import String Ascii ZArith NArith List Bool Lia.
From Stdlib Require Import DecimalN.
Import ListNotations.

Local Open Scope Z_scope.
Local Open Scope list_scope.

(** ** Strings *)

Definition jsstring := list ascii.

Definition lit (s : string) : jsstring := list_ascii_of_string s.

Coercion lit : string >-> jsstring.

Definition ascii_code (c : ascii) : N := N_of_ascii c.

Fixpoint starts_with (p s : jsstring) : bool :=
  match p, s with
  | [], _ => true
  | a :: p', b :: s' => Ascii.eqb a b && starts_with p' s'
  | _ :: _, [] => false
  end.

(** [String.prototype.includes]. *)
Fixpoint includes (s needle : jsstring) : bool :=
  starts_with needle s ||
  match s with
  | [] => false
  | _ :: s' => includes s' needle
  end.

Fixpoint jsstring_eqb (a b : jsstring) : bool :=
  match a, b with
  | [], [] => true
  | x :: a', y :: b' => Ascii.eqb x y && jsstring_eqb a' b'
  | _, _ => false
  end.

Definition mem_char (c : ascii) (s : jsstring) : bool :=
  existsb (Ascii.eqb c) s.

(** The first character of [l] is [x]. *)
Definition head_is (x : ascii) (l : jsstring) : bool :=
  match l with
  | c :: _ => Ascii.eqb c x
  | [] => false
  end.

(** Longest prefix whose characters satisfy [p], and the rest. *)
Fixpoint span (p : ascii -> bool) (s : jsstring) : jsstring * jsstring :=
  match s with
  | [] => ([], [])
  | c :: s' =>
      if p c then let (a, b) := span p s' in (c :: a, b) else ([], s)
  end.

(** ** Numbers *)

Module Number.

Inductive digit := D0 | D1 | D2 | D3 | D4 | D5 | D6 | D7 | D8 | D9.

Definition digit_eqb (a b : digit) : bool :=
  match a, b with
  | D0, D0 | D1, D1 | D2, D2 | D3, D3 | D4, D4
  | D5, D5 | D6, D6 | D7, D7 | D8, D8 | D9, D9 => true
  | _, _ => false
  end.

Definition char_of_digit (d : digit) : ascii :=
  match d with
  | D0 => "0" | D1 => "1" | D2 => "2" | D3 => "3" | D4 => "4"
  | D5 => "5" | D6 => "6" | D7 => "7" | D8 => "8" | D9 => "9"
  end%char.

Definition digit_of_char (c : ascii) : option digit :=
  match c with
  | "0" => Some D0 | "1" => Some D1 | "2" => Some D2 | "3" => Some D3
  | "4" => Some D4 | "5" => Some D5 | "6" => Some D6 | "7" => Some D7
  | "8" => Some D8 | "9" => Some D9 | _ => None
  end%char.

Definition is_digit (c : ascii) : bool :=
  match digit_of_char c with Some _ => true | None => false end.

Definition chars (ds : list digit) : jsstring := map char_of_digit ds.

Fixpoint digits_of_chars (s : jsstring) : list digit :=
  match s with
  | [] => []
  | c :: s' =>
      match digit_of_char c with
      | Some d => d :: digits_of_chars s'
      | None => []
      end
  end.

Fixpoint digits_of_uint (u : Decimal.uint) : list digit :=
  match u with
  | Decimal.Nil => []
  | Decimal.D0 u => D0 :: digits_of_uint u
  | Decimal.D1 u => D1 :: digits_of_uint u
  | Decimal.D2 u => D2 :: digits_of_uint u
  | Decimal.D3 u => D3 :: digits_of_uint u
  | Decimal.D4 u => D4 :: digits_of_uint u
  | Decimal.D5 u => D5 :: digits_of_uint u
  | Decimal.D6 u => D6 :: digits_of_uint u
  | Decimal.D7 u => D7 :: digits_of_uint u
  | Decimal.D8 u => D8 :: digits_of_uint u
  | Decimal.D9 u => D9 :: digits_of_uint u
  end.

Fixpoint uint_of_digits (ds : list digit) : Decimal.uint :=
  match ds with
  | [] => Decimal.Nil
  | D0 :: ds => Decimal.D0 (uint_of_digits ds)
  | D1 :: ds => Decimal.D1 (uint_of_digits ds)
  | D2 :: ds => Decimal.D2 (uint_of_digits ds)
  | D3 :: ds => Decimal.D3 (uint_of_digits ds)
  | D4 :: ds => Decimal.D4 (uint_of_digits ds)
  | D5 :: ds => Decimal.D5 (uint_of_digits ds)
  | D6 :: ds => Decimal.D6 (uint_of_digits ds)
  | D7 :: ds => Decimal.D7 (uint_of_digits ds)
  | D8 :: ds => Decimal.D8 (uint_of_digits ds)
  | D9 :: ds => Decimal.D9 (uint_of_digits ds)
  end.

(** Decimal digits of a natural number, most significant first. *)
Definition digits_of_N (n : N) : list digit := digits_of_uint (N.to_uint n).

Definition N_of_digits (ds : list digit) : N := N.of_uint (uint_of_digits ds).

(** A finite number: zero, or sign, significant digits [sig] (most
    significant first, neither starting nor ending with a zero) and the
    position [point] of the decimal point: the value is
    [0.sig * 10 ^ point]. *)
Inductive number :=
| Zero
| Finite (negative : bool) (sig : list digit) (point : Z).

Definition wf (x : number) : bool :=
  match x with
  | Zero => true
  | Finite _ sig _ =>
      match sig with
      | [] => false
      | d :: _ => negb (digit_eqb d D0) && negb (digit_eqb (last sig D1) D0)
      end
  end.

Fixpoint strip_zeros (ds : list digit) : nat * list digit :=
  match ds with
  | D0 :: ds' => let (z, r) := strip_zeros ds' in (S z, r)
  | _ => (O, ds)
  end.

Definition strip_trailing_zeros (ds : list digit) : list digit :=
  rev (snd (strip_zeros (rev ds))).

(** The number [0.ds * 10 ^ point], in normal form. *)
Definition normalize (negative : bool) (ds : list digit) (point : Z) : number :=
  let (z, ds1) := strip_zeros ds in
  match strip_trailing_zeros ds1 with
  | [] => Zero
  | sig => Finite negative sig (point - Z.of_nat z)
  end.

Definition of_Z (z : Z) : number :=
  let ds := digits_of_N (Z.to_N (Z.abs z)) in
  normalize (z <? 0) ds (Z.of_nat (length ds)).

Definition zeros (n : Z) : list digit := repeat D0 (Z.to_nat n).

(** Number::toString (radix 10) on the digits [sig] and the point [n]. *)
Definition toString (x : number) : jsstring :=
  match x with
  | Zero => lit "0"
  | Finite negative sig n =>
      let k := Z.of_nat (length sig) in
      (if negative then lit "-" else []) ++
      if (-6 <? n) && (n <=? 21) then
        if k <=? n then chars sig ++ chars (zeros (n - k))
        else if 0 <? n then
          chars (firstn (Z.to_nat n) sig) ++ lit "." ++
          chars (skipn (Z.to_nat n) sig)
        else lit "0." ++ chars (zeros (- n)) ++ chars sig
      else
        let e := n - 1 in
        let exponent :=
          lit "e" ++ (if e <? 0 then lit "-" else lit "+") ++
          chars (digits_of_N (Z.to_N (Z.abs e))) in
        match sig with
        | [] => []
        | [d] => chars [d] ++ exponent
        | d :: rest => chars [d] ++ lit "." ++ chars rest ++ exponent
        end
  end.

(** The number token of the JSON grammar at the head of [s]: an optional
    minus sign; an integer part, a single zero or digits that do not start
    with a zero; an optional fraction, a point and at least one digit; an
    optional exponent, [e] or [E], an optional sign and at least one
    digit. *)
Definition parse_fraction (s : jsstring) : option (jsstring * jsstring) :=
  match s with
  | "."%char :: s1 =>
      match span is_digit s1 with
      | ([], _) => None
      | (f, s2) => Some (f, s2)
      end
  | _ => Some ([], s)
  end.

Definition parse_exponent (s : jsstring) : option (Z * jsstring) :=
  let digits negative s1 :=
    match span is_digit s1 with
    | ([], _) => None
    | (e, s2) =>
        let v := Z.of_N (N_of_digits (digits_of_chars e)) in
        Some (if negative : bool then - v else v, s2)
    end in
  match s with
  | "e"%char :: s1 | "E"%char :: s1 =>
      match s1 with
      | "+"%char :: s2 => digits false s2
      | "-"%char :: s2 => digits true s2
      | _ => digits false s1
      end
  | _ => Some (0, s)
  end.

Definition parse (s : jsstring) : option (number * jsstring) :=
  let (negative, s0) :=
    match s with
    | "-"%char :: s' => (true, s')
    | _ => (false, s)
    end in
  match span is_digit s0 with
  | ([], _) => None
  | ("0"%char :: _ :: _, _) => None
  | (i, s1) =>
      match parse_fraction s1 with
      | None => None
      | Some (f, s2) =>
          match parse_exponent s2 with
          | None => None
          | Some (e, s3) =>
              Some (normalize negative (digits_of_chars (i ++ f))
                      (Z.of_nat (length i) + e), s3)
          end
      end
  end.

(** *** Notions for the facts about number tokens *)

(** The text after a run of digits does not go on with a digit. *)
Definition stops (t : jsstring) : bool :=
  match t with
  | [] => true
  | c :: _ => negb (is_digit c)
  end.

(** The significant digits of a number in normal form. *)
Definition sig_ok (sig : list digit) : Prop :=
  sig <> [] /\ hd D1 sig <> D0 /\ last sig D1 <> D0.

(** The fraction, the exponent and the sign of a token, as text. *)
Definition fraction_text (F : list digit) : jsstring :=
  match F with
  | [] => []
  | _ :: _ => "."%char :: chars F
  end.

Definition exponent_text (E : option Z) : jsstring :=
  match E with
  | None => []
  | Some e =>
      "e"%char :: (if (e <? 0)%Z then "-"%char else "+"%char)
      :: chars (digits_of_N (Z.to_N (Z.abs e)))
  end.

(** What may follow a number in a JSON text. *)
Definition ends_number (t : jsstring) : bool :=
  match t with
  | [] => true
  | c :: _ =>
      negb (is_digit c) && negb (Ascii.eqb c ".") && negb (Ascii.eqb c "e")
      && negb (Ascii.eqb c "E")
  end.

Definition sign_text (negative : bool) : jsstring :=
  if negative then ["-"%char] else [].

(** The integer part of a token: a single zero, or digits that do not
    start with a zero. *)
Definition integer_ok (I : list digit) : Prop :=
  I = [D0] \/ (I <> [] /\ hd D1 I <> D0).

End Number.

(** ** Objects used as mappings *)

Module Obj.

(** The own enumerable string-keyed properties, in enumeration order. *)
Definition obj (V : Type) := list (jsstring * V).

Section Properties.
Context {V : Type}.

(** [Object.keys]. *)
Definition keys (o : obj V) : list jsstring := map fst o.

Fixpoint get (k : jsstring) (o : obj V) : option V :=
  match o with
  | [] => None
  | (k', v) :: o' => if jsstring_eqb k k' then Some v else get k o'
  end.

(** An array index is the canonical decimal form of an integer below
    [2 ^ 32 - 1]; these keys are enumerated first, in ascending order. *)
Definition array_index (k : jsstring) : option N :=
  match k with
  | [] => None
  | c :: rest =>
      if forallb Number.is_digit k &&
         (negb (Ascii.eqb c "0") || match rest with [] => true | _ => false end)
      then
        let n := Number.N_of_digits (Number.digits_of_chars k) in
        if (n <? 2 ^ 32 - 1)%N then Some n else None
      else None
  end.

Fixpoint replace (k : jsstring) (v : V) (o : obj V) : obj V :=
  match o with
  | [] => []
  | (k', v') :: o' =>
      if jsstring_eqb k k' then (k', v) :: o' else (k', v') :: replace k v o'
  end.

Fixpoint insert_index (i : N) (k : jsstring) (v : V) (o : obj V) : obj V :=
  match o with
  | [] => [(k, v)]
  | (k', v') :: o' =>
      match array_index k' with
      | Some j =>
          if (j <? i)%N then (k', v') :: insert_index i k v o'
          else (k, v) :: o
      | None => (k, v) :: o
      end
  end.

(** CreateDataProperty on an ordinary object: an existing property keeps
    its place and takes the new value; a new array index goes among the
    array indices, any other new key goes last. *)
Definition define (k : jsstring) (v : V) (o : obj V) : obj V :=
  match get k o with
  | Some _ => replace k v o
  | None =>
      match array_index k with
      | Some i => insert_index i k v o
      | None => o ++ [(k, v)]
      end
  end.

(** Copying the properties of [src] onto [target], in the order of
    [src]: one spread element of an object literal. *)
Definition spread (target src : obj V) : obj V :=
  fold_left (fun o kv => define (fst kv) (snd kv) o) src target.

(** The object built by defining the members in the order written. *)
Definition of_entries (members : list (jsstring * V)) : obj V :=
  spread [] members.

(** [k1] may come before [k2] in the enumeration of one object. *)
Definition before (k1 k2 : jsstring) : bool :=
  match array_index k1, array_index k2 with
  | Some i, Some j => (i <? j)%N
  | Some _, None => true
  | None, Some _ => false
  | None, None => negb (jsstring_eqb k1 k2)
  end.

Fixpoint ordered (ks : list jsstring) : bool :=
  match ks with
  | [] => true
  | k :: ks' => forallb (before k) ks' && ordered ks'
  end.

(** The lists that are the properties of some object: distinct keys,
    array indices first and ascending. *)
Definition wf (o : obj V) : bool := ordered (keys o).

End Properties.

End Obj.

(** ** JSON *)

Module JSON.

Unset Elimination Schemes.

Inductive json :=
| JNull
| JBool (b : bool)
| JNum (n : Number.number)
| JStr (s : jsstring)
| JArr (elements : list json)
| JObj (properties : Obj.obj json).

Set Elimination Schemes.

(** Induction through the elements of arrays and the values of objects. *)
Fixpoint json_ind (P : json -> Prop)
  (HNull : P JNull) (HBool : forall b, P (JBool b))
  (HNum : forall n, P (JNum n)) (HStr : forall s, P (JStr s))
  (HArr : forall elements, Forall P elements -> P (JArr elements))
  (HObj : forall properties,
      Forall (fun kv => P (snd kv)) properties -> P (JObj properties))
  (v : json) {struct v} : P v :=
  let rec := json_ind P HNull HBool HNum HStr HArr HObj in
  match v with
  | JNull => HNull
  | JBool b => HBool b
  | JNum n => HNum n
  | JStr s => HStr s
  | JArr elements =>
      HArr elements
        ((fix all (l : list json) : Forall P l :=
            match l with
            | [] => Forall_nil P
            | x :: l' => Forall_cons x (rec x) (all l')
            end) elements)
  | JObj properties =>
      HObj properties
        ((fix all (l : list (jsstring * json))
            : Forall (fun kv => P (snd kv)) l :=
            match l with
            | [] => Forall_nil _
            | kv :: l' => Forall_cons kv (rec (snd kv)) (all l')
            end) properties)
  end.

Definition dquote : ascii := "034"%char.
Definition backslash : ascii := "092"%char.

Fixpoint join (sep : jsstring) (parts : list jsstring) : jsstring :=
  match parts with
  | [] => []
  | [p] => p
  | p :: rest => p ++ sep ++ join sep rest
  end.

Definition hex_lower (n : N) : ascii :=
  if (n <? 10)%N then ascii_of_N (48 + n) else ascii_of_N (87 + n).

(** QuoteJSONString, one character: the short escapes, [\u00xx] for the
    other control characters, the character itself otherwise. *)
Definition quote_char (c : ascii) : jsstring :=
  match c with
  | "008"%char => [backslash; "b"%char]
  | "009"%char => [backslash; "t"%char]
  | "010"%char => [backslash; "n"%char]
  | "012"%char => [backslash; "f"%char]
  | "013"%char => [backslash; "r"%char]
  | "034"%char => [backslash; dquote]
  | "092"%char => [backslash; backslash]
  | _ =>
      if (ascii_code c <? 32)%N then
        [backslash; "u"; "0"; "0";
         hex_lower (ascii_code c / 16); hex_lower (ascii_code c mod 16)]%char
      else [c]
  end.

Definition quote (s : jsstring) : jsstring :=
  [dquote] ++ flat_map quote_char s ++ [dquote].

(** [JSON.stringify] with one argument. *)
Fixpoint stringify (v : json) : jsstring :=
  match v with
  | JNull => lit "null"
  | JBool true => lit "true"
  | JBool false => lit "false"
  | JNum n => Number.toString n
  | JStr s => quote s
  | JArr elements =>
      lit "[" ++ join (lit ",") (map stringify elements) ++ lit "]"
  | JObj properties =>
      lit "{" ++
      join (lit ",")
        (map (fun kv => quote (fst kv) ++ lit ":" ++ stringify (snd kv))
           properties) ++
      lit "}"
  end.

Definition is_ws (c : ascii) : bool :=
  match c with
  | "009"%char | "010"%char | "013"%char | " "%char => true
  | _ => false
  end.

Fixpoint skip_ws (s : jsstring) : jsstring :=
  match s with
  | c :: s' => if is_ws c then skip_ws s' else s
  | [] => []
  end.

Definition hex_value (c : ascii) : option N :=
  let n := ascii_code c in
  if (48 <=? n)%N && (n <=? 57)%N then Some (n - 48)%N
  else if (65 <=? n)%N && (n <=? 70)%N then Some (n - 55)%N
  else if (97 <=? n)%N && (n <=? 102)%N then Some (n - 87)%N
  else None.

Definition hex4 (a b c d : ascii) : option N :=
  match hex_value a, hex_value b, hex_value c, hex_value d with
  | Some x, Some y, Some z, Some w =>
      Some (((x * 16 + y) * 16 + z) * 16 + w)%N
  | _, _, _, _ => None
  end.

(** The bytes of a code point (surrogates included, as three bytes). *)
Definition utf8_encode (cp : N) : jsstring :=
  (if cp <? 128 then [ascii_of_N cp]
   else if cp <? 2048 then
     [ascii_of_N (192 + cp / 64); ascii_of_N (128 + cp mod 64)]
   else if cp <? 65536 then
     [ascii_of_N (224 + cp / 4096); ascii_of_N (128 + (cp / 64) mod 64);
      ascii_of_N (128 + cp mod 64)]
   else
     [ascii_of_N (240 + cp / 262144); ascii_of_N (128 + (cp / 4096) mod 64);
      ascii_of_N (128 + (cp / 64) mod 64); ascii_of_N (128 + cp mod 64)])%N.

Definition is_high_surrogate (u : N) : bool := (55296 <=? u)%N && (u <=? 56319)%N.
Definition is_low_surrogate (u : N) : bool := (56320 <=? u)%N && (u <=? 57343)%N.

(** [pre] before the characters of a parsed string. *)
Definition prepend (pre : jsstring) (r : option (jsstring * jsstring))
  : option (jsstring * jsstring) :=
  match r with
  | Some (body, rest) => Some (pre ++ body, rest)
  | None => None
  end.

(** The characters of a JSON string after its opening quote, and the text
    after its closing quote.  An escape [\uXXXX] stands for a UTF-16 code
    unit; a high surrogate followed by the escape of a low surrogate is
    one code point. *)
Fixpoint parse_string_body (s : jsstring) : option (jsstring * jsstring) :=
  match s with
  | [] => None
  | c :: s1 =>
      if Ascii.eqb c dquote then Some ([], s1)
      else if Ascii.eqb c backslash then
        match s1 with
        | [] => None
        | e :: s2 =>
            match e with
            | "034"%char => prepend [dquote] (parse_string_body s2)
            | "092"%char => prepend [backslash] (parse_string_body s2)
            | "/"%char => prepend ["/"%char] (parse_string_body s2)
            | "b"%char => prepend ["008"%char] (parse_string_body s2)
            | "f"%char => prepend ["012"%char] (parse_string_body s2)
            | "n"%char => prepend ["010"%char] (parse_string_body s2)
            | "r"%char => prepend ["013"%char] (parse_string_body s2)
            | "t"%char => prepend ["009"%char] (parse_string_body s2)
            | "u"%char =>
                match s2 with
                | h1 :: h2 :: h3 :: h4 :: s3 =>
                    match hex4 h1 h2 h3 h4 with
                    | None => None
                    | Some u =>
                        let single :=
                          prepend (utf8_encode u) (parse_string_body s3) in
                        if is_high_surrogate u then
                          match s3 with
                          | b :: "u"%char :: l1 :: l2 :: l3 :: l4 :: s4 =>
                              if Ascii.eqb b backslash then
                                match hex4 l1 l2 l3 l4 with
                                | Some w =>
                                    if is_low_surrogate w then
                                      prepend
                                        (utf8_encode
                                           (65536 + (u - 55296) * 1024 +
                                            (w - 56320))%N)
                                        (parse_string_body s4)
                                    else single
                                | None => single
                                end
                              else single
                          | _ => single
                          end
                        else single
                    end
                | _ => None
                end
            | _ => None
            end
        end
      else if (ascii_code c <? 32)%N then None
      else prepend [c] (parse_string_body s1)
  end.

(** One escape sequence after its backslash: the bytes it stands for and
    the text after it. *)
Definition escape (s1 : jsstring) : option (jsstring * jsstring) :=
  match s1 with
  | [] => None
  | e :: s2 =>
      match e with
      | "034"%char => Some ([dquote], s2)
      | "092"%char => Some ([backslash], s2)
      | "/"%char => Some (["/"%char], s2)
      | "b"%char => Some (["008"%char], s2)
      | "f"%char => Some (["012"%char], s2)
      | "n"%char => Some (["010"%char], s2)
      | "r"%char => Some (["013"%char], s2)
      | "t"%char => Some (["009"%char], s2)
      | "u"%char =>
          match s2 with
          | h1 :: h2 :: h3 :: h4 :: s3 =>
              match hex4 h1 h2 h3 h4 with
              | None => None
              | Some u =>
                  let single := Some (utf8_encode u, s3) in
                  if is_high_surrogate u then
                    match s3 with
                    | b :: "u"%char :: l1 :: l2 :: l3 :: l4 :: s4 =>
                        if Ascii.eqb b backslash then
                          match hex4 l1 l2 l3 l4 with
                          | Some w =>
                              if is_low_surrogate w then
                                Some
                                  (utf8_encode
                                     (65536 + (u - 55296) * 1024 +
                                      (w - 56320))%N, s4)
                              else single
                          | None => single
                          end
                        else single
                    | _ => single
                    end
                  else single
              end
          | _ => None
          end
      | _ => None
      end
  end.

Definition expect (word : jsstring) (v : json) (s : jsstring)
  : option (json * jsstring) :=
  if starts_with word s then Some (v, skipn (length word) s) else None.

(** The JSON value at the head of [s] (after white space) and the text
    after it.  [fuel] bounds the depth of the recursion. *)
Fixpoint parse_value (fuel : nat) (s : jsstring) {struct fuel}
  : option (json * jsstring) :=
  match fuel with
  | O => None
  | S fuel' =>
      match skip_ws s with
      | [] => None
      | c :: s1 =>
          match c with
          | "n"%char => expect (lit "null") JNull (c :: s1)
          | "t"%char => expect (lit "true") (JBool true) (c :: s1)
          | "f"%char => expect (lit "false") (JBool false) (c :: s1)
          | "034"%char =>
              match parse_string_body s1 with
              | Some (str, s2) => Some (JStr str, s2)
              | None => None
              end
          | "["%char =>
              match skip_ws s1 with
              | "]"%char :: s2 => Some (JArr [], s2)
              | _ =>
                  match parse_elements fuel' s1 with
                  | Some (elements, s2) => Some (JArr elements, s2)
                  | None => None
                  end
              end
          | "{"%char =>
              match skip_ws s1 with
              | "}"%char :: s2 => Some (JObj [], s2)
              | _ =>
                  match parse_members fuel' s1 with
                  | Some (members, s2) => Some (JObj (Obj.of_entries members), s2)
                  | None => None
                  end
              end
          | _ =>
              match Number.parse (c :: s1) with
              | Some (n, s2) => Some (JNum n, s2)
              | None => None
              end
          end
      end
  end

with parse_elements (fuel : nat) (s : jsstring) {struct fuel}
  : option (list json * jsstring) :=
  match fuel with
  | O => None
  | S fuel' =>
      match parse_value fuel' s with
      | None => None
      | Some (v, s1) =>
          match skip_ws s1 with
          | ","%char :: s2 =>
              match parse_elements fuel' s2 with
              | Some (vs, s3) => Some (v :: vs, s3)
              | None => None
              end
          | "]"%char :: s2 => Some ([v], s2)
          | _ => None
          end
      end
  end

with parse_members (fuel : nat) (s : jsstring) {struct fuel}
  : option (list (jsstring * json) * jsstring) :=
  match fuel with
  | O => None
  | S fuel' =>
      match skip_ws s with
      | "034"%char :: s1 =>
          match parse_string_body s1 with
          | None => None
          | Some (k, s2) =>
              match skip_ws s2 with
              | ":"%char :: s3 =>
                  match parse_value fuel' s3 with
                  | None => None
                  | Some (v, s4) =>
                      match skip_ws s4 with
                      | ","%char :: s5 =>
                          match parse_members fuel' s5 with
                          | Some (ms, s6) => Some ((k, v) :: ms, s6)
                          | None => None
                          end
                      | "}"%char :: s5 => Some ([(k, v)], s5)
                      | _ => None
                      end
                  end
              | _ => None
              end
          end
      | _ => None
      end
  end.

(** The values that stand for a JavaScript value: numbers in normal form,
    the properties of every object in enumeration order. *)
Fixpoint wf (v : json) : bool :=
  match v with
  | JNum n => Number.wf n
  | JArr elements => forallb wf elements
  | JObj properties =>
      Obj.wf properties && forallb (fun kv => wf (snd kv)) properties
  | _ => true
  end.

(** [JSON.parse] with one argument; [None] is the SyntaxError.  The fuel
    covers every text: a result at any fuel is the result at this one
    ([FuelFacts.parse_value_enough]). *)
Definition parse (text : jsstring) : option json :=
  match parse_value (S (length text)) text with
  | Some (v, rest) =>
      match skip_ws rest with
      | [] => Some v
      | _ :: _ => None
      end
  | None => None
  end.

(** *** Notions for the facts about the parser *)

(** The characters a serialized value can start with. *)
Definition value_head (c : ascii) : bool :=
  Number.is_digit c ||
  existsb (Ascii.eqb c) ["-"; "n"; "t"; "f"; "034"; "["; "{"]%char.

(** What follows a value inside an array or an object, or at the end. *)
Definition delimits (t : jsstring) : bool :=
  match t with
  | [] => true
  | c :: _ => existsb (Ascii.eqb c) [","; "]"; "}"]%char
  end.

(** The text between the brackets of an array and of an object. *)
Definition elements_text (elements : list json) : jsstring :=
  join (lit ",") (map stringify elements).

Definition member_text (kv : jsstring * json) : jsstring :=
  quote (fst kv) ++ lit ":" ++ stringify (snd kv).

Definition members_text (properties : Obj.obj json) : jsstring :=
  join (lit ",") (map member_text properties).

(** The statement of the round trip for one value, at any fuel that
    covers the length of its text. *)
Definition parses_back (v : json) : Prop :=
  forall fuel t,
    (length (stringify v) <= fuel)%nat -> delimits t = true ->
    parse_value fuel (stringify v ++ t) = Some (v, t).

(** Once a parser has a result, it has the same result with any fuel that
    covers the characters it read. *)
Definition value_fuel (fuel : nat) : Prop :=
  forall s v rest,
    parse_value fuel s = Some (v, rest) ->
    (length rest < length s)%nat /\
    forall fuel', (length s - length rest <= fuel')%nat ->
      parse_value fuel' s = Some (v, rest).

Definition elements_fuel (fuel : nat) : Prop :=
  forall s vs rest,
    parse_elements fuel s = Some (vs, rest) ->
    (length rest < length s)%nat /\
    forall fuel', (length s - length rest <= fuel')%nat ->
      parse_elements fuel' s = Some (vs, rest).

Definition members_fuel (fuel : nat) : Prop :=
  forall s ms rest,
    parse_members fuel s = Some (ms, rest) ->
    (length rest < length s)%nat /\
    forall fuel', (length s - length rest <= fuel')%nat ->
      parse_members fuel' s = Some (ms, rest).

End JSON.

(** ** Primitive values and their string form *)

Inductive prim :=
| PUndefined
| PNull
| PBool (b : bool)
| PNum (n : Number.number)
| PStr (s : jsstring).

(** ToString on the primitive values. *)
Definition ToString (p : prim) : jsstring :=
  match p with
  | PUndefined => lit "undefined"
  | PNull => lit "null"
  | PBool true => lit "true"
  | PBool false => lit "false"
  | PNum n => Number.toString n
  | PStr s => s
  end.

(** ** URLSearchParams *)

Module URLSearchParams.

(** The list of name-value pairs of a URLSearchParams object. *)
Definition t := list (jsstring * jsstring).

(** [new URLSearchParams(init)] for a record: each property, in
    enumeration order, with its value converted to a string. *)
Definition of_record (init : Obj.obj prim) : t :=
  map (fun kv => (fst kv, ToString (snd kv))) init.

(** The bytes the urlencoded serializer leaves as they are: ASCII
    alphanumerics, [*], [-], [.] and [_]. *)
Definition unreserved (c : ascii) : bool :=
  let n := ascii_code c in
  ((48 <=? n) && (n <=? 57) || (65 <=? n) && (n <=? 90) ||
   (97 <=? n) && (n <=? 122) ||
   (n =? 42) || (n =? 45) || (n =? 46) || (n =? 95))%N.

Definition hex_upper (n : N) : ascii :=
  if (n <? 10)%N then ascii_of_N (48 + n) else ascii_of_N (55 + n).

Definition percent_encode_byte (c : ascii) : jsstring :=
  ["%"%char; hex_upper (ascii_code c / 16); hex_upper (ascii_code c mod 16)].

Definition encode_byte (c : ascii) : jsstring :=
  if Ascii.eqb c " " then ["+"%char]
  else if unreserved c then [c]
  else percent_encode_byte c.

(** Percent-encoding of a name or a value, space as plus. *)
Definition encode (s : jsstring) : jsstring := flat_map encode_byte s.

(** The urlencoded serializer: pairs are joined by [&], which is written
    before a pair whenever the output so far is not empty. *)
Definition serialize_step (output : jsstring) (tuple : jsstring * jsstring)
  : jsstring :=
  (match output with [] => [] | _ :: _ => output ++ lit "&" end) ++
  encode (fst tuple) ++ lit "=" ++ encode (snd tuple).

Definition toString (params : t) : jsstring :=
  fold_left serialize_step params [].

Fixpoint split_on (sep : ascii) (s : jsstring) : list jsstring :=
  match s with
  | [] => [[]]
  | c :: s' =>
      if Ascii.eqb c sep then [] :: split_on sep s'
      else
        match split_on sep s' with
        | [] => [[c]]
        | first :: others => (c :: first) :: others
        end
  end.

(** [s] cut at the first [sep], when there is one. *)
Fixpoint cut (sep : ascii) (s : jsstring) : option (jsstring * jsstring) :=
  match s with
  | [] => None
  | c :: s' =>
      if Ascii.eqb c sep then Some ([], s')
      else
        match cut sep s' with
        | Some (a, b) => Some (c :: a, b)
        | None => None
        end
  end.

Definition plus_to_space (s : jsstring) : jsstring :=
  map (fun c => if Ascii.eqb c "+" then " "%char else c) s.

Fixpoint percent_decode (s : jsstring) : jsstring :=
  match s with
  | [] => []
  | c :: s1 =>
      if Ascii.eqb c "%" then
        match s1 with
        | h1 :: h2 :: s2 =>
            match JSON.hex_value h1, JSON.hex_value h2 with
            | Some x, Some y => ascii_of_N (x * 16 + y) :: percent_decode s2
            | _, _ => c :: percent_decode s1
            end
        | _ => c :: percent_decode s1
        end
      else c :: percent_decode s1
  end.

Definition decode (s : jsstring) : jsstring :=
  percent_decode (plus_to_space s).

(** The urlencoded parser. *)
Definition parse_sequence (bytes : jsstring) : t :=
  match bytes with
  | [] => []
  | _ :: _ =>
      let (name, value) :=
        match cut "=" bytes with
        | Some (name, value) => (name, value)
        | None => (bytes, [])
        end in
      [(decode name, decode value)]
  end.

Definition parse (input : jsstring) : t :=
  flat_map parse_sequence (split_on "&" input).

(** One pair as the serializer writes it. *)
Definition pair_text (tuple : jsstring * jsstring) : jsstring :=
  encode (fst tuple) ++ lit "=" ++ encode (snd tuple).

End URLSearchParams.

(** The pairs of a URLSearchParams object as properties: every value is
    a string. *)
Definition entries (params : URLSearchParams.t) : Obj.obj prim :=
  map (fun kv => (fst kv, PStr (snd kv))) params.

Definition is_string (p : prim) : bool :=
  match p with PStr _ => true | _ => false end.

(** The query of a URL: what follows the first [?] of the URL without
    its fragment (the text from the first [#] on); empty when there is no
    [?]. *)
Definition url_query (url : jsstring) : jsstring :=
  let without_fragment :=
    match URLSearchParams.cut "#" url with
    | Some (front, _) => front
    | None => url
    end in
  match URLSearchParams.cut "?" without_fragment with
  | Some (_, query) => query
  | None => []
  end.

(** ** The transport and asynchronous code *)

Module RequestInit.

(** The options object handed to [fetch].  A property that was never
    assigned is absent: [body = None] reads as [undefined]. *)
Record t := make {
  method : jsstring;
  headers : Obj.obj jsstring;
  body : option jsstring
}.

Definition set_headers (h : Obj.obj jsstring) (o : t) : t :=
  make (method o) h (body o).

Definition set_body (b : jsstring) (o : t) : t :=
  make (method o) (headers o) (Some b).

End RequestInit.

(** What a rejected promise carries. *)
Inductive exn :=
| Error (message : jsstring)
| SyntaxError
| TransportFailure (reason : jsstring).

Inductive outcome (A : Type) :=
| Resolved (value : A)
| Rejected (reason : exn).

Arguments Resolved {A} value.
Arguments Rejected {A} reason.

Module Response.

(** A response: the status line and the text of the body. *)
Record t := make {
  status : Z;
  statusText : jsstring;
  text : jsstring
}.

(** [response.ok]: the status is in the range 200 to 299. *)
Definition ok (r : t) : bool := (200 <=? status r) && (status r <=? 299).

(** [response.json()]: the body parsed as JSON. *)
Definition json (r : t) : outcome JSON.json :=
  match JSON.parse (text r) with
  | Some v => Resolved v
  | None => Rejected SyntaxError
  end.

End Response.

(** An argument of [console.log]. *)
Inductive logged :=
| LogString (s : jsstring)
| LogResponse (r : Response.t)
| LogJson (v : JSON.json).

(** The effects of an [async] function, in the order it performs them. *)
Inductive Async (A : Type) :=
| Return (value : A)
| Throw (reason : exn)
| ConsoleLog (args : list logged) (k : Async A)
| Fetch (url : jsstring) (options : RequestInit.t) (k : Response.t -> Async A).

Arguments Return {A} value.
Arguments Throw {A} reason.
Arguments ConsoleLog {A} args k.
Arguments Fetch {A} url options k.

(** [await p]: the value of a fulfilled promise goes on to [k], the reason
    of a rejected one is thrown. *)
Definition await {A B : Type} (p : outcome A) (k : A -> Async B) : Async B :=
  match p with
  | Resolved v => k v
  | Rejected e => Throw e
  end.

(** The transport: what [fetch(url, options)] settles to. *)
Definition transport := jsstring -> RequestInit.t -> outcome Response.t.

(** What is observed of one call. *)
Record settled (A : Type) := {
  console : list (list logged);
  requests : list (jsstring * RequestInit.t);
  result : outcome A
}.

Arguments console {A} s.
Arguments requests {A} s.
Arguments result {A} s.

Fixpoint run {A : Type} (fetch : transport) (p : Async A) : settled A :=
  match p with
  | Return v => {| console := []; requests := []; result := Resolved v |}
  | Throw e => {| console := []; requests := []; result := Rejected e |}
  | ConsoleLog args k =>
      let s := run fetch k in
      {| console := args :: console s; requests := requests s;
         result := result s |}
  | Fetch url options k =>
      match fetch url options with
      | Rejected e =>
          {| console := []; requests := [(url, options)];
             result := Rejected e |}
      | Resolved response =>
          let s := run fetch (k response) in
          {| console := console s; requests := (url, options) :: requests s;
             result := result s |}
      end
  end.

(** ** The build configuration *)

(** The value the build substitutes for [__HONO_DOMAIN__]; [NODE_ENV] is
    the environment variable, absent or a string. *)
Definition HONO_DOMAIN (NODE_ENV : option jsstring) : jsstring :=
  match NODE_ENV with
  | Some env =>
      if jsstring_eqb env (lit "development") then lit ""
      else lit "https://api.my-production-app.com"
  | None => lit "https://api.my-production-app.com"
  end.

(** ** apiRequest *)

Section ApiRequest.

Variable NODE_ENV : option jsstring.

Definition newline : ascii := "010"%char.

(** The message of the error thrown on a failed response. *)
Definition error_message (response : Response.t) (method url : jsstring)
  (options : RequestInit.t) (result : JSON.json) : jsstring :=
  [newline] ++
  lit "      RESPONSE STATUS: " ++
  Number.toString (Number.of_Z (Response.status response)) ++ lit " | " ++
  Response.statusText response ++ [newline] ++
  lit "      METHOD: " ++ method ++ [newline] ++
  lit "      URL: " ++ url ++ [newline] ++
  lit "      PAYLOAD: " ++
  match RequestInit.body options with
  | Some b => b
  | None => lit "undefined"
  end ++ [newline] ++
  lit "      ERRORS: " ++ JSON.stringify result ++ [newline] ++
  lit "    ".

Definition apiRequest (method path : jsstring)
  (queryStringParams : Obj.obj prim) (payload : Obj.obj JSON.json)
  (additionalHeaders : Obj.obj jsstring) : Async JSON.json :=
  let headers := [(lit "Content-Type", lit "application/json")] in
  let options := RequestInit.make method headers None in
  let options :=
    RequestInit.set_headers
      (Obj.spread (Obj.spread [] (RequestInit.headers options))
         additionalHeaders)
      options in
  let qsParams := lit "" in
  let qsParams :=
    if (0 <? length (Obj.keys queryStringParams))%nat then
      lit "?" ++
      URLSearchParams.toString (URLSearchParams.of_record queryStringParams)
    else qsParams in
  let options :=
    if (0 <? length (Obj.keys payload))%nat then
      RequestInit.set_body (JSON.stringify (JSON.JObj payload)) options
    else options in
  let url := HONO_DOMAIN NODE_ENV ++ lit "/api" ++ path ++ qsParams in
  ConsoleLog [LogString (lit "FETCH URL (fetch-request):"); LogString url]
    (Fetch url options (fun response =>
       if negb (Response.ok response) then
         ConsoleLog [LogString (lit "ERROR RESPONSE:"); LogResponse response]
           (await (Response.json response) (fun result =>
              ConsoleLog [LogString (lit "ERROR RESULT:"); LogJson result]
                (Throw
                   (Error
                      (error_message response method url options result)))))
       else await (Response.json response) Return)).

End ApiRequest.

(** The URL and the options of a call, in closed form. *)
Definition request_url (NODE_ENV : option jsstring) (path : jsstring)
  (queryStringParams : Obj.obj prim) : jsstring :=
  HONO_DOMAIN NODE_ENV ++ lit "/api" ++ path ++
  match queryStringParams with
  | [] => []
  | _ :: _ =>
      lit "?" ++
      URLSearchParams.toString (URLSearchParams.of_record queryStringParams)
  end.

Definition request_options (method : jsstring) (payload : Obj.obj JSON.json)
  (additionalHeaders : Obj.obj jsstring) : RequestInit.t :=
  RequestInit.make method
    (Obj.spread [(lit "Content-Type", lit "application/json")] additionalHeaders)
    match payload with
    | [] => None
    | _ :: _ => Some (JSON.stringify (JSON.JObj payload))
    end.

(** ** Transports and values of the examples *)

Definition quoted (s : string) : jsstring :=
  [JSON.dquote] ++ lit s ++ [JSON.dquote].

(** A transport that answers every request with [response]. *)
Definition mock (response : Response.t) : transport :=
  fun _ _ => Resolved response.

Definition not_found_body : jsstring :=
  lit "{" ++ quoted "error" ++ lit ":" ++ quoted "not found" ++ lit "}".

Definition user_body : jsstring := lit "{" ++ quoted "id" ++ lit ":1}".

Definition ok_response : Response.t :=
  Response.make 200 (lit "OK") user_body.

Definition not_found_response : Response.t :=
  Response.make 404 (lit "Not Found") not_found_body.

Definition server_error_response : Response.t :=
  Response.make 500 (lit "Internal Server Error")
    (lit "<html>Internal Server Error</html>").

Definition empty_response : Response.t :=
  Response.make 200 (lit "OK") (lit "").

(** The parameters and the payload of the examples of the source. *)
Definition search_term : Obj.obj prim :=
  [(lit "q", PStr (lit "comfortable shoes"))].

Definition search_params : Obj.obj prim :=
  [(lit "q", PStr (lit "comfortable shoes"));
   (lit "limit", PNum (Number.of_Z 10));
   (lit "offset", PNum (Number.of_Z 0))].

Definition limit_params : Obj.obj prim :=
  [(lit "limit", PNum (Number.of_Z 10))].

Definition product : Obj.obj JSON.json :=
  [(lit "name", JSON.JStr (lit "T-Shirt"));
   (lit "price", JSON.JNum (Number.of_Z 2500))].

Definition plain_text_headers : Obj.obj jsstring :=
  [(lit "Accept", lit "text/plain"); (lit "Content-Type", lit "text/plain")].

(** ** The query string, the body and the development server *)

(** The characters of a serialized query string: the bytes the serializer
    leaves as they are, and [%], [+], [=] and [&]. *)
Definition query_char (c : ascii) : bool :=
  URLSearchParams.unreserved c ||
  existsb (Ascii.eqb c) ["%"; "+"; "="; "&"]%char.

(** A control character, below the space. *)
Definition is_control (c : ascii) : bool := (ascii_code c <? 32)%N.

(** [server.proxy] of the build configuration: a request of the
    development server whose URL starts with [/api] goes to the server on
    port 8787, with the same URL. *)
Definition proxy : list (jsstring * jsstring) :=
  [(lit "/api", lit "http://localhost:8787")].

Definition proxied (url : jsstring) : option jsstring :=
  match find (fun rule => starts_with (fst rule) url) proxy with
  | Some rule => Some (snd rule ++ url)
  | None => None
  end.

(** A transport without network, and one that sends the body back. *)
Definition offline : transport :=
  fun _ _ => Rejected (TransportFailure (lit "Failed to fetch")).

Definition echo : transport :=
  fun _ options =>
    Resolved
      (Response.make 200 (lit "OK")
         match RequestInit.body options with
         | Some text => text
         | None => lit ""
         end).

Definition user : Obj.obj JSON.json :=
  [(lit "id", JSON.JNum (Number.of_Z 1))].

Definition padded_response : Response.t :=
  Response.make 200 (lit "OK")
    (lit " " ++ JSON.stringify (JSON.JObj user) ++ [newline]).

(** * Facts about the model *)

Ltac each_byte c := destruct c as [[] [] [] [] [] [] [] []].

Lemma jsstring_eqb_eq (a b : jsstring) : jsstring_eqb a b = true <-> a = b.
Proof.
  revert b; induction a as [|x a IH]; intros [|y b]; simpl; split;
    try congruence; try reflexivity.
  - intros H. apply andb_true_iff in H as [Hx Hab].
    apply Ascii.eqb_eq in Hx. apply IH in Hab. congruence.
  - intros H. injection H as -> ->.
    rewrite Ascii.eqb_refl. simpl. now apply IH.
Qed.

Lemma jsstring_eqb_refl (a : jsstring) : jsstring_eqb a a = true.
Proof. now apply jsstring_eqb_eq. Qed.

Lemma jsstring_eqb_neq (a b : jsstring) : jsstring_eqb a b = false <-> a <> b.
Proof.
  split.
  - intros H E. apply jsstring_eqb_eq in E. congruence.
  - intros H. destruct (jsstring_eqb a b) eqn:E; [|reflexivity].
    apply jsstring_eqb_eq in E. contradiction.
Qed.

Lemma jsstring_eqb_sym (a b : jsstring) : jsstring_eqb a b = jsstring_eqb b a.
Proof.
  destruct (jsstring_eqb a b) eqn:E.
  - apply jsstring_eqb_eq in E. subst. now rewrite jsstring_eqb_refl.
  - apply jsstring_eqb_neq in E. symmetry. apply jsstring_eqb_neq. congruence.
Qed.

Module ObjFacts.
Import Obj.

Section Facts.
Context {V : Type}.
Implicit Types (o : obj V) (k : jsstring) (v : V).

Lemma get_app_None k o o' :
  get k o = None -> get k (o ++ o') = get k o'.
Proof.
  induction o as [|[k1 v1] o IH]; simpl; [reflexivity|].
  destruct (jsstring_eqb k k1); [discriminate|exact IH].
Qed.

Lemma get_replace k k' v o :
  get k' o <> None ->
  get k (replace k' v o) = if jsstring_eqb k k' then Some v else get k o.
Proof.
  induction o as [|[k1 v1] o IH]; simpl; [congruence|].
  destruct (jsstring_eqb k' k1) eqn:E1.
  - intros _. apply jsstring_eqb_eq in E1. subst k1. simpl.
    destruct (jsstring_eqb k k'); reflexivity.
  - intros H. simpl. destruct (jsstring_eqb k k1) eqn:E2.
    + apply jsstring_eqb_eq in E2. subst k1.
      rewrite jsstring_eqb_sym in E1. now rewrite E1.
    + now apply IH.
Qed.

Lemma get_insert_index k k' i v o :
  get k' o = None ->
  get k (insert_index i k' v o) = if jsstring_eqb k k' then Some v else get k o.
Proof.
  induction o as [|[k1 v1] o IH]; simpl.
  - intros _. destruct (jsstring_eqb k k'); reflexivity.
  - destruct (jsstring_eqb k' k1) eqn:E1; [discriminate|]. intros H.
    assert (Hnew : get k ((k', v) :: (k1, v1) :: o) =
                   if jsstring_eqb k k' then Some v
                   else if jsstring_eqb k k1 then Some v1 else get k o)
      by reflexivity.
    destruct (array_index k1) as [j|]; [|exact Hnew].
    destruct (j <? i)%N; [|exact Hnew].
    simpl. destruct (jsstring_eqb k k1) eqn:E2.
    + apply jsstring_eqb_eq in E2. subst k1.
      rewrite jsstring_eqb_sym in E1. now rewrite E1.
    + now apply IH.
Qed.

Lemma get_define k k' v o :
  get k (define k' v o) = if jsstring_eqb k k' then Some v else get k o.
Proof.
  unfold define. destruct (get k' o) as [v0|] eqn:G.
  - apply get_replace. congruence.
  - destruct (array_index k') as [i|].
    + now apply get_insert_index.
    + destruct (jsstring_eqb k k') eqn:E.
      * apply jsstring_eqb_eq in E. subst k'.
        rewrite get_app_None by assumption. simpl.
        now rewrite jsstring_eqb_refl.
      * destruct (get k o) as [w|] eqn:Gk.
        -- clear G. induction o as [|[k1 v1] o IH]; simpl in *; [discriminate|].
           destruct (jsstring_eqb k k1); [assumption|now apply IH].
        -- rewrite get_app_None by assumption. simpl. now rewrite E.
Qed.

Lemma before_irrefl k : before k k = false.
Proof.
  unfold before. destruct (array_index k).
  - apply N.ltb_irrefl.
  - now rewrite jsstring_eqb_refl.
Qed.

Lemma get_None_of_before k o :
  forallb (before k) (keys o) = true -> get k o = None.
Proof.
  induction o as [|[k1 v1] o IH]; simpl; [reflexivity|].
  intros H. apply andb_true_iff in H as [H1 H2].
  destruct (jsstring_eqb k k1) eqn:E.
  - apply jsstring_eqb_eq in E. subst. rewrite before_irrefl in H1. discriminate.
  - now apply IH.
Qed.

(** Looking a key up in the result of a spread: the source wins. *)
Lemma get_spread k (target src : obj V) :
  wf src = true ->
  get k (spread target src) =
  match get k src with Some v => Some v | None => get k target end.
Proof.
  unfold wf, spread. revert target.
  induction src as [|[k1 v1] src IH]; intros target; simpl; [reflexivity|].
  intros H. apply andb_true_iff in H as [H1 H2].
  rewrite IH by assumption. rewrite get_define.
  destruct (jsstring_eqb k k1) eqn:E.
  - apply jsstring_eqb_eq in E. subst k1.
    now rewrite (get_None_of_before _ _ H1).
  - reflexivity.
Qed.

Lemma ordered_app_before (l1 l2 : list jsstring) k :
  ordered (l1 ++ k :: l2) = true -> forallb (fun k' => before k' k) l1 = true.
Proof.
  induction l1 as [|a l1 IH]; simpl; [reflexivity|].
  intros H. apply andb_true_iff in H as [H1 H2].
  rewrite forallb_app in H1. apply andb_true_iff in H1 as [_ H1].
  simpl in H1. apply andb_true_iff in H1 as [H1 _].
  rewrite H1. simpl. now apply IH.
Qed.

Lemma before_neq k' k : before k' k = true -> jsstring_eqb k k' = false.
Proof.
  intros H. apply jsstring_eqb_neq. intros ->.
  rewrite before_irrefl in H. discriminate.
Qed.

Lemma define_after k v o :
  forallb (fun k' => before k' k) (keys o) = true ->
  define k v o = o ++ [(k, v)].
Proof.
  intros H. unfold define.
  assert (G : get k o = None).
  { induction o as [|[k1 v1] o IH]; simpl in *; [reflexivity|].
    apply andb_true_iff in H as [H1 H2].
    rewrite (before_neq _ _ H1). now apply IH. }
  rewrite G. destruct (array_index k) as [i|] eqn:Ei; [|reflexivity].
  clear G. induction o as [|[k1 v1] o IH]; simpl in *; [reflexivity|].
  apply andb_true_iff in H as [H1 H2].
  unfold before in H1. rewrite Ei in H1.
  destruct (array_index k1) as [j|]; [|discriminate].
  rewrite H1. f_equal. now apply IH.
Qed.

Lemma spread_ordered (acc src : obj V) :
  wf (acc ++ src) = true -> spread acc src = acc ++ src.
Proof.
  unfold wf, spread, keys. revert acc.
  induction src as [|[k v] src IH]; intros acc H; simpl.
  - now rewrite app_nil_r.
  - rewrite define_after.
    + rewrite IH; rewrite <- app_assoc; [reflexivity|exact H].
    + rewrite map_app in H. simpl in H.
      exact (ordered_app_before _ _ _ H).
Qed.

(** An object is rebuilt by defining its properties in their order. *)
Lemma of_entries_wf o : wf o = true -> of_entries o = o.
Proof. intros H. unfold of_entries. now apply spread_ordered. Qed.

End Facts.
End ObjFacts.

Module URLFacts.
Import URLSearchParams.

(** The encoder writes neither of the separators. *)
Lemma encode_byte_separators c :
  forallb (fun x => negb (Ascii.eqb x "&") && negb (Ascii.eqb x "="))
    (encode_byte c) = true.
Proof. each_byte c; reflexivity. Qed.

Lemma encode_separators s :
  forallb (fun x => negb (Ascii.eqb x "&") && negb (Ascii.eqb x "="))
    (encode s) = true.
Proof.
  induction s as [|c s IH]; [reflexivity|].
  unfold encode in *. simpl. rewrite forallb_app, IH, encode_byte_separators.
  reflexivity.
Qed.

Lemma encode_byte_marks c :
  forallb (fun x => negb (Ascii.eqb x "?") && negb (Ascii.eqb x "#"))
    (encode_byte c) = true.
Proof. each_byte c; reflexivity. Qed.

Lemma decode_encode_byte c t :
  percent_decode (plus_to_space (encode_byte c) ++ t) = c :: percent_decode t.
Proof. each_byte c; reflexivity. Qed.

Lemma decode_encode s : decode (encode s) = s.
Proof.
  unfold decode, encode, plus_to_space.
  induction s as [|c s IH]; [reflexivity|].
  simpl. rewrite map_app. fold (plus_to_space (encode_byte c)).
  rewrite decode_encode_byte. now rewrite IH.
Qed.

Lemma cut_app sep a b :
  forallb (fun x => negb (Ascii.eqb x sep)) a = true ->
  cut sep (a ++ sep :: b) = Some (a, b).
Proof.
  induction a as [|c a IH]; simpl.
  - now rewrite Ascii.eqb_refl.
  - intros H. apply andb_true_iff in H as [H1 H2].
    apply negb_true_iff in H1. rewrite H1, IH by assumption. reflexivity.
Qed.

Lemma cut_absent sep a :
  forallb (fun x => negb (Ascii.eqb x sep)) a = true -> cut sep a = None.
Proof.
  induction a as [|c a IH]; simpl; [reflexivity|].
  intros H. apply andb_true_iff in H as [H1 H2].
  apply negb_true_iff in H1. rewrite H1, IH by assumption. reflexivity.
Qed.

Lemma split_on_absent sep a :
  forallb (fun x => negb (Ascii.eqb x sep)) a = true -> split_on sep a = [a].
Proof.
  induction a as [|c a IH]; simpl; [reflexivity|].
  intros H. apply andb_true_iff in H as [H1 H2].
  apply negb_true_iff in H1. rewrite H1, IH by assumption. reflexivity.
Qed.

Lemma split_on_app sep a b :
  forallb (fun x => negb (Ascii.eqb x sep)) a = true ->
  split_on sep (a ++ sep :: b) = a :: split_on sep b.
Proof.
  induction a as [|c a IH]; simpl.
  - now rewrite Ascii.eqb_refl.
  - intros H. apply andb_true_iff in H as [H1 H2].
    apply negb_true_iff in H1. rewrite H1, IH by assumption. reflexivity.
Qed.

Lemma forallb_weaken {A} (p q : A -> bool) l :
  (forall x, p x = true -> q x = true) ->
  forallb p l = true -> forallb q l = true.
Proof.
  intros Hpq. induction l as [|x l IH]; simpl; [reflexivity|].
  intros H. apply andb_true_iff in H as [H1 H2].
  now rewrite (Hpq _ H1), IH.
Qed.

Lemma encode_no_amp s :
  forallb (fun x => negb (Ascii.eqb x "&")) (encode s) = true.
Proof.
  eapply forallb_weaken; [|apply encode_separators].
  intros x H. now apply andb_true_iff in H as [H _].
Qed.

Lemma encode_no_eq s :
  forallb (fun x => negb (Ascii.eqb x "=")) (encode s) = true.
Proof.
  eapply forallb_weaken; [|apply encode_separators].
  intros x H. now apply andb_true_iff in H as [_ H].
Qed.

Lemma pair_text_no_amp tuple :
  forallb (fun x => negb (Ascii.eqb x "&")) (pair_text tuple) = true.
Proof.
  unfold pair_text. rewrite !forallb_app, !encode_no_amp. reflexivity.
Qed.

Lemma parse_sequence_pair_text tuple :
  parse_sequence (pair_text tuple) = [tuple].
Proof.
  destruct tuple as [name value]. unfold parse_sequence, pair_text. simpl.
  destruct (encode name ++ "="%char :: encode value) eqn:E.
  - destruct (encode name); discriminate.
  - rewrite <- E. rewrite cut_app by apply encode_no_eq.
    now rewrite !decode_encode.
Qed.

Lemma fold_serialize params output :
  output <> [] ->
  fold_left serialize_step params output =
  output ++ flat_map (fun tuple => lit "&" ++ pair_text tuple) params.
Proof.
  revert output. induction params as [|tuple params IH]; intros output H; simpl.
  - now rewrite app_nil_r.
  - rewrite IH.
    + unfold serialize_step. fold (pair_text tuple).
      destruct output; [congruence|]. now rewrite <- !app_assoc.
    + unfold serialize_step. destruct output; [congruence|]. simpl. intros E. discriminate E.
Qed.

Lemma toString_cons tuple params :
  toString (tuple :: params) =
  pair_text tuple ++ flat_map (fun tuple => lit "&" ++ pair_text tuple) params.
Proof.
  unfold toString. simpl. apply fold_serialize.
  unfold serialize_step. intros E.
  apply app_eq_nil in E as [_ E]. discriminate E.
Qed.

Lemma split_pairs tuple params :
  split_on "&"
    (pair_text tuple ++ flat_map (fun tuple => lit "&" ++ pair_text tuple) params)
  = map pair_text (tuple :: params).
Proof.
  revert tuple. induction params as [|next params IH]; intros tuple; simpl.
  - rewrite app_nil_r. apply split_on_absent, pair_text_no_amp.
  - rewrite split_on_app by apply pair_text_no_amp.
    f_equal. apply IH.
Qed.

(** Parsing what the serializer wrote gives the pairs back. *)
Lemma parse_serialized params : parse (toString params) = params.
Proof.
  destruct params as [|tuple params]; [reflexivity|].
  unfold parse. rewrite toString_cons, split_pairs.
  induction (tuple :: params) as [|x l IH]; [reflexivity|].
  simpl. rewrite parse_sequence_pair_text, IH. reflexivity.
Qed.

Lemma toString_marks params :
  forallb (fun x => negb (Ascii.eqb x "?") && negb (Ascii.eqb x "#"))
    (toString params) = true.
Proof.
  assert (E : forall s,
    forallb (fun x => negb (Ascii.eqb x "?") && negb (Ascii.eqb x "#"))
      (encode s) = true).
  { induction s as [|c s IH]; [reflexivity|].
    unfold encode in *. simpl. now rewrite forallb_app, IH, encode_byte_marks. }
  assert (P : forall tuple,
    forallb (fun x => negb (Ascii.eqb x "?") && negb (Ascii.eqb x "#"))
      (pair_text tuple) = true).
  { intros tuple. unfold pair_text. now rewrite !forallb_app, !E. }
  destruct params as [|tuple params]; [reflexivity|].
  rewrite toString_cons, forallb_app, P. simpl.
  induction params as [|x l IH]; [reflexivity|].
  simpl. now rewrite forallb_app, P, IH.
Qed.

End URLFacts.

Module NumberFacts.
Import Number.

Lemma digit_of_char_of_digit d : digit_of_char (char_of_digit d) = Some d.
Proof. destruct d; reflexivity. Qed.

Lemma is_digit_char_of_digit d : is_digit (char_of_digit d) = true.
Proof. destruct d; reflexivity. Qed.

Lemma digits_of_chars_chars ds : digits_of_chars (chars ds) = ds.
Proof.
  induction ds as [|d ds IH]; [reflexivity|].
  simpl. now rewrite digit_of_char_of_digit, IH.
Qed.

Lemma chars_app a b : chars (a ++ b) = chars a ++ chars b.
Proof. apply map_app. Qed.

Lemma length_chars ds : length (chars ds) = length ds.
Proof. apply length_map. Qed.

Lemma span_chars ds t :
  stops t = true -> span is_digit (chars ds ++ t) = (chars ds, t).
Proof.
  intros H. induction ds as [|d ds IH]; simpl.
  - destruct t as [|c t]; [reflexivity|]. simpl in *.
    apply negb_true_iff in H. now rewrite H.
  - rewrite is_digit_char_of_digit. fold (chars ds). now rewrite IH.
Qed.

Lemma uint_of_digits_of_uint u : uint_of_digits (digits_of_uint u) = u.
Proof. induction u; simpl; now rewrite ?IHu. Qed.

Lemma N_of_digits_of_N n : N_of_digits (digits_of_N n) = n.
Proof.
  unfold N_of_digits, digits_of_N. rewrite uint_of_digits_of_uint.
  apply DecimalN.Unsigned.of_to.
Qed.

Lemma digits_of_N_nonempty n : digits_of_N n <> [].
Proof.
  unfold digits_of_N. destruct n as [|p]; [discriminate|].
  simpl. pose proof (DecimalPos.Unsigned.to_uint_nonnil p) as H.
  destruct (Pos.to_uint p); [congruence|discriminate..].
Qed.

(** *** Normal forms *)

Lemma strip_zeros_repeat z sig :
  hd D1 sig <> D0 -> strip_zeros (repeat D0 z ++ sig) = (z, sig).
Proof.
  intros H. induction z as [|z IH]; simpl.
  - destruct sig as [|d sig]; [reflexivity|]. simpl in H.
    destruct d; try reflexivity. congruence.
  - now rewrite IH.
Qed.

Lemma rev_repeat {A} (x : A) n : rev (repeat x n) = repeat x n.
Proof.
  induction n as [|n IH]; [reflexivity|].
  simpl. rewrite IH. change [x] with (repeat x 1).
  rewrite <- repeat_app. now rewrite Nat.add_comm.
Qed.

Lemma hd_rev_last {A} (l : list A) d : hd d (rev l) = last l d.
Proof.
  induction l as [|x l IH]; [reflexivity|].
  simpl rev. destruct l as [|y l].
  - reflexivity.
  - change (last (x :: y :: l) d) with (last (y :: l) d).
    rewrite <- IH. simpl. destruct (rev l ++ [y]) eqn:E; [|reflexivity].
    destruct (rev l); discriminate.
Qed.

Lemma strip_trailing_zeros_repeat z sig :
  last sig D1 <> D0 -> strip_trailing_zeros (sig ++ repeat D0 z) = sig.
Proof.
  intros H. unfold strip_trailing_zeros.
  rewrite rev_app_distr, rev_repeat, strip_zeros_repeat.
  - simpl. apply rev_involutive.
  - now rewrite hd_rev_last.
Qed.

Lemma wf_sig_ok negative sig point :
  wf (Finite negative sig point) = true -> sig_ok sig.
Proof.
  simpl. destruct sig as [|d sig]; [discriminate|].
  intros H. apply andb_true_iff in H as [H1 H2].
  split; [discriminate|]. split.
  - simpl. intros ->. discriminate.
  - intros E.
    change (last (d :: sig) D1) with (last (d :: sig) D1) in *.
    rewrite E in H2. discriminate.
Qed.

Lemma normalize_padded negative a sig b point :
  sig_ok sig ->
  normalize negative (repeat D0 a ++ sig ++ repeat D0 b) point =
  Finite negative sig (point - Z.of_nat a).
Proof.
  intros (Hne & Hhd & Hlast). unfold normalize.
  rewrite strip_zeros_repeat.
  - rewrite strip_trailing_zeros_repeat by assumption.
    destruct sig; [congruence|reflexivity].
  - destruct sig as [|d sig]; [congruence|exact Hhd].
Qed.

Lemma normalize_sig negative sig point :
  sig_ok sig -> normalize negative sig point = Finite negative sig point.
Proof.
  intros H. pose proof (normalize_padded negative 0 sig 0 point H) as E.
  simpl in E. rewrite app_nil_r in E. rewrite E. f_equal. lia.
Qed.

(** *** The parts of a number token *)

Lemma ends_number_stops t : ends_number t = true -> stops t = true.
Proof.
  destruct t as [|c t]; [reflexivity|]. simpl.
  intros H. now repeat (apply andb_true_iff in H as [H _]).
Qed.

Lemma parse_fraction_absent t :
  match t with c :: _ => Ascii.eqb c "." | [] => false end = false ->
  parse_fraction t = Some ([], t).
Proof.
  destruct t as [|c t]; [reflexivity|].
  each_byte c; intros H; try discriminate H; reflexivity.
Qed.

Lemma parse_exponent_absent t :
  match t with
  | c :: _ => Ascii.eqb c "e" || Ascii.eqb c "E"
  | [] => false
  end = false ->
  parse_exponent t = Some (0%Z, t).
Proof.
  destruct t as [|c t]; [reflexivity|].
  each_byte c; intros H; try discriminate H; reflexivity.
Qed.

Lemma parse_exponent_text E t :
  ends_number t = true ->
  parse_exponent (exponent_text E ++ t) =
  Some (match E with Some e => e | None => 0%Z end, t).
Proof.
  intros H. destruct E as [e|]; simpl.
  - pose proof (digits_of_N_nonempty (Z.to_N (Z.abs e))) as Hne.
    destruct (e <? 0)%Z eqn:Es; simpl;
      rewrite span_chars by now apply ends_number_stops.
    all: destruct (digits_of_N (Z.to_N (Z.abs e))) as [|d ds] eqn:Ed;
      [congruence|].
    all: rewrite <- Ed in *; clear Hne.
    all: assert (Hc : chars (digits_of_N (Z.to_N (Z.abs e))) =
                      char_of_digit d :: chars ds) by now rewrite Ed.
    all: rewrite Hc at 1; cbv iota beta.
    all: rewrite digits_of_chars_chars, N_of_digits_of_N.
    all: repeat f_equal.
    + apply Z.ltb_lt in Es. lia.
    + apply Z.ltb_ge in Es. lia.
  - apply parse_exponent_absent.
    destruct t as [|c t]; [reflexivity|]. simpl in H.
    apply andb_true_iff in H as [H H4]. apply andb_true_iff in H as [H H3].
    apply negb_true_iff in H3, H4. now rewrite H3, H4.
Qed.

Lemma stops_exponent_text E t :
  ends_number t = true -> stops (exponent_text E ++ t) = true.
Proof.
  intros H. destruct E; [reflexivity|]. now apply ends_number_stops.
Qed.

Lemma parse_fraction_text F E t :
  ends_number t = true ->
  parse_fraction (fraction_text F ++ exponent_text E ++ t) =
  Some (chars F, exponent_text E ++ t).
Proof.
  intros H. destruct F as [|d F].
  - simpl. apply parse_fraction_absent.
    destruct E; [reflexivity|]. simpl.
    destruct t as [|c t]; [reflexivity|]. simpl in H.
    apply andb_true_iff in H as [H _]. apply andb_true_iff in H as [H _].
    apply andb_true_iff in H as [_ H]. now apply negb_true_iff in H.
  - change (fraction_text (d :: F) ++ exponent_text E ++ t)
      with ("."%char :: chars (d :: F) ++ exponent_text E ++ t).
    unfold parse_fraction.
    rewrite span_chars by now apply stops_exponent_text.
    reflexivity.
Qed.

Lemma parse_parts negative I F E t :
  integer_ok I -> ends_number t = true ->
  parse (sign_text negative ++ chars I ++ fraction_text F ++
         exponent_text E ++ t) =
  Some (normalize negative (I ++ F)
          (Z.of_nat (length I) + match E with Some e => e | None => 0%Z end),
        t).
Proof.
  intros HI Ht.
  assert (Hstop : stops (fraction_text F ++ exponent_text E ++ t) = true).
  { destruct F; [now apply stops_exponent_text|reflexivity]. }
  assert (Hbody :
    match span is_digit (chars I ++ fraction_text F ++ exponent_text E ++ t) with
    | ([], _) => None
    | ("0"%char :: _ :: _, _) => None
    | (i, s1) =>
        match parse_fraction s1 with
        | None => None
        | Some (f, s2) =>
            match parse_exponent s2 with
            | None => None
            | Some (e, s3) =>
                Some (normalize negative (digits_of_chars (i ++ f))
                        (Z.of_nat (length i) + e), s3)
            end
        end
    end =
    Some (normalize negative (I ++ F)
            (Z.of_nat (length I) + match E with Some e => e | None => 0%Z end),
          t)).
  { rewrite span_chars by assumption.
    assert (Hrest :
      match parse_fraction (fraction_text F ++ exponent_text E ++ t) with
      | None => None
      | Some (f, s2) =>
          match parse_exponent s2 with
          | None => None
          | Some (e, s3) =>
              Some (normalize negative (digits_of_chars (chars I ++ f))
                      (Z.of_nat (length (chars I)) + e), s3)
          end
      end =
      Some (normalize negative (I ++ F)
              (Z.of_nat (length I) +
               match E with Some e => e | None => 0%Z end), t)).
    { rewrite parse_fraction_text, parse_exponent_text by assumption.
      now rewrite <- chars_app, digits_of_chars_chars, length_chars. }
    destruct HI as [->|[Hne Hhd]]; [exact Hrest|].
    destruct I as [|d I]; [congruence|]. simpl in Hhd.
    destruct d; try congruence; exact Hrest. }
  destruct negative; [exact Hbody|].
  simpl sign_text. rewrite app_nil_l.
  destruct I as [|d I].
  - destruct HI as [HI|[HI _]]; congruence.
  - destruct d; exact Hbody.
Qed.

(** *** Number::toString yields a token that parses back *)

Lemma toString_parts x :
  wf x = true ->
  exists negative I F E,
    integer_ok I /\
    toString x = sign_text negative ++ chars I ++ fraction_text F ++
                 exponent_text E /\
    normalize negative (I ++ F)
      (Z.of_nat (length I) + match E with Some e => e | None => 0%Z end) = x.
Proof.
  destruct x as [|negative sig n].
  - intros _. exists false, [D0], [], None. repeat split.
    now left.
  - intros Hwf. pose proof (wf_sig_ok _ _ _ Hwf) as Hsig.
    destruct Hsig as (Hne & Hhd & Hlast).
    assert (Hsig : sig_ok sig) by (repeat split; assumption).
    unfold toString.
    change (if negative then lit "-" else []) with (sign_text negative).
    destruct ((-6 <? n)%Z && (n <=? 21)%Z) eqn:Hrange.
    + destruct (Z.of_nat (length sig) <=? n)%Z eqn:Hk.
      * (* digits followed by zeros *)
        apply Z.leb_le in Hk.
        exists negative, (sig ++ zeros (n - Z.of_nat (length sig))), [], None.
        split; [right; split|split].
        -- destruct sig; [congruence|discriminate].
        -- destruct sig; [congruence|exact Hhd].
        -- simpl. now rewrite chars_app, !app_nil_r.
        -- rewrite app_nil_r.
           pose proof (normalize_padded negative 0 sig
             (Z.to_nat (n - Z.of_nat (length sig)))
             (Z.of_nat
                (length (sig ++ zeros (n - Z.of_nat (length sig)))) + 0)
             Hsig) as E.
           simpl in E. unfold zeros in *. rewrite E. f_equal.
           rewrite length_app, repeat_length. lia.
      * apply Z.leb_gt in Hk. destruct (0 <? n)%Z eqn:Hpos.
        -- (* a point inside the digits *)
           apply Z.ltb_lt in Hpos.
           exists negative, (firstn (Z.to_nat n) sig),
             (skipn (Z.to_nat n) sig), None.
           assert (Hf : firstn (Z.to_nat n) sig <> []).
           { destruct sig as [|d sig]; [congruence|].
             destruct (Z.to_nat n) eqn:En; [lia|discriminate]. }
           assert (Hs : skipn (Z.to_nat n) sig <> []).
           { intros E. apply (f_equal (@length digit)) in E.
             rewrite length_skipn in E. simpl in E. lia. }
           split; [right; split|split].
           ++ exact Hf.
           ++ destruct sig as [|d sig]; [congruence|].
              destruct (Z.to_nat n) eqn:En; [lia|exact Hhd].
           ++ unfold fraction_text at 1.
              destruct (skipn (Z.to_nat n) sig) eqn:Es; [congruence|].
              simpl. now rewrite app_nil_r.
           ++ rewrite firstn_skipn, normalize_sig by assumption.
              f_equal. rewrite length_firstn. lia.
        -- (* zero, point, zeros, digits *)
           apply Z.ltb_ge in Hpos.
           exists negative, [D0], (zeros (- n) ++ sig), None.
           split; [now left|split].
           ++ unfold fraction_text.
              destruct (zeros (- n) ++ sig) eqn:Ez.
              { apply app_eq_nil in Ez as [_ Ez]. congruence. }
              rewrite <- Ez. simpl. now rewrite chars_app, !app_nil_r.
           ++ pose proof (normalize_padded negative (S (Z.to_nat (- n))) sig 0
                (Z.of_nat (length [D0]) + 0) Hsig) as E.
              simpl repeat in E. rewrite app_nil_r in E.
              unfold zeros. simpl app. simpl app in E. rewrite E.
              f_equal. simpl length. lia.
    + (* exponent notation *)
      destruct sig as [|d rest]; [congruence|].
      exists negative, [d], rest, (Some (n - 1)%Z).
      split; [|split].
      * destruct rest; simpl in *.
        -- right. split; [discriminate|exact Hhd].
        -- right. split; [discriminate|exact Hhd].
      * unfold exponent_text.
        destruct rest as [|d2 rest], negative, (n - 1 <? 0)%Z; reflexivity.
      * change ([d] ++ rest) with (d :: rest).
        rewrite normalize_sig by assumption. f_equal. simpl length. lia.
Qed.

(** Parsing the string form of a number gives the number back. *)
Lemma parse_number_toString x t :
  wf x = true -> ends_number t = true ->
  parse (toString x ++ t) = Some (x, t).
Proof.
  intros Hwf Ht.
  destruct (toString_parts x Hwf) as (negative & I & F & E & HI & Htext & Hnorm).
  rewrite Htext, <- !app_assoc, parse_parts by assumption.
  now rewrite Hnorm.
Qed.

(** The first character of the string form: a minus sign or a digit. *)
Lemma toString_head x :
  wf x = true ->
  exists c s, toString x = c :: s /\
    (c = "-"%char \/ is_digit c = true).
Proof.
  intros Hwf.
  destruct (toString_parts x Hwf) as (negative & I & F & E & HI & Htext & _).
  rewrite Htext. destruct negative.
  - eexists _, _. split; [reflexivity|now left].
  - destruct I as [|d I].
    + destruct HI as [HI|[HI _]]; congruence.
    + eexists _, _. split; [reflexivity|].
      right. apply is_digit_char_of_digit.
Qed.

End NumberFacts.

Module JSONFacts.
Import JSON.

Local Arguments Number.parse : simpl never.
Local Arguments parse_elements : simpl never.
Local Arguments parse_members : simpl never.
Local Arguments join : simpl never.

(** *** Strings *)

Lemma parse_quote_char c t :
  parse_string_body (quote_char c ++ t) =
  match parse_string_body t with
  | Some (body, rest) => Some (c :: body, rest)
  | None => None
  end.
Proof. each_byte c; reflexivity. Qed.

Lemma parse_string_body_quoted s t :
  parse_string_body (flat_map quote_char s ++ dquote :: t) = Some (s, t).
Proof.
  induction s as [|c s IH]; [reflexivity|].
  simpl flat_map. rewrite <- app_assoc, parse_quote_char, IH. reflexivity.
Qed.

Lemma quote_eq s : quote s = dquote :: flat_map quote_char s ++ [dquote].
Proof. reflexivity. Qed.

(** *** The head of a serialized value *)

Lemma stringify_head v :
  wf v = true -> exists c s, stringify v = c :: s /\ value_head c = true.
Proof.
  destruct v as [|[]|n|s|elements|properties]; intros Hwf;
    try (eexists _, _; split; [reflexivity|reflexivity]).
  destruct (NumberFacts.toString_head n Hwf) as (c & s & E & [->|Hc]).
  - exists "-"%char, s. split; [exact E|reflexivity].
  - exists c, s. split; [exact E|]. unfold value_head. now rewrite Hc.
Qed.

Lemma delimits_ends_number t :
  delimits t = true -> Number.ends_number t = true.
Proof.
  destruct t as [|c t]; [reflexivity|].
  each_byte c; intros H; try discriminate H; reflexivity.
Qed.

Lemma parse_number_value fuel n t :
  Number.wf n = true -> delimits t = true ->
  parse_value (S fuel) (Number.toString n ++ t) = Some (JNum n, t).
Proof.
  intros Hwf Ht.
  pose proof (NumberFacts.parse_number_toString n t Hwf (delimits_ends_number t Ht)) as P.
  destruct (NumberFacts.toString_head n Hwf) as (c & s & E & Hc).
  rewrite E in *. simpl app in *.
  destruct Hc as [->|Hc].
  - simpl. now rewrite P.
  - revert P Hc. clear. each_byte c; intros P Hc; try discriminate Hc;
      simpl; now rewrite P.
Qed.

Lemma parse_elements_step fuel s :
  parse_elements (S fuel) s =
  match parse_value fuel s with
  | None => None
  | Some (v, s1) =>
      match skip_ws s1 with
      | ","%char :: s2 =>
          match parse_elements fuel s2 with
          | Some (vs, s3) => Some (v :: vs, s3)
          | None => None
          end
      | "]"%char :: s2 => Some ([v], s2)
      | _ => None
      end
  end.
Proof. reflexivity. Qed.

Lemma parse_members_step fuel s1 :
  parse_members (S fuel) (dquote :: s1) =
  match parse_string_body s1 with
  | None => None
  | Some (k, s2) =>
      match skip_ws s2 with
      | ":"%char :: s3 =>
          match parse_value fuel s3 with
          | None => None
          | Some (v, s4) =>
              match skip_ws s4 with
              | ","%char :: s5 =>
                  match parse_members fuel s5 with
                  | Some (ms, s6) => Some ((k, v) :: ms, s6)
                  | None => None
                  end
              | "}"%char :: s5 => Some ([(k, v)], s5)
              | _ => None
              end
          end
      | _ => None
      end
  end.
Proof. reflexivity. Qed.

Lemma join_one sep p : join sep [p] = p.
Proof. reflexivity. Qed.

Lemma join_cons sep p q parts :
  join sep (p :: q :: parts) = p ++ sep ++ join sep (q :: parts).
Proof. reflexivity. Qed.

Lemma parse_elements_text elements :
  Forall parses_back elements -> forallb wf elements = true ->
  elements <> [] ->
  forall fuel t,
    (length (elements_text elements) < fuel)%nat ->
    parse_elements fuel (elements_text elements ++ "]"%char :: t) =
    Some (elements, t).
Proof.
  unfold elements_text.
  induction 1 as [|v vs Hv Hvs IH]; intros Hwf Hne fuel t Hfuel; [congruence|].
  simpl in Hwf. apply andb_true_iff in Hwf as [Hwfv Hwfvs].
  unfold parses_back in Hv.
  destruct fuel as [|fuel]; [lia|].
  destruct vs as [|v2 vs].
  - simpl map in *. rewrite join_one in *. rewrite parse_elements_step.
    rewrite Hv by (simpl; try lia; reflexivity).
    reflexivity.
  - simpl map in *. rewrite join_cons in *.
    rewrite !length_app in Hfuel. simpl length in Hfuel.
    rewrite <- ?app_assoc. rewrite parse_elements_step.
    rewrite Hv by (simpl; try lia; reflexivity).
    simpl skip_ws. simpl app. cbv iota beta.
    change [","%char] with (lit ",") in *.
    rewrite IH; [reflexivity|assumption|discriminate|].
    lia.
Qed.

Lemma parse_members_text properties :
  Forall (fun kv => parses_back (snd kv)) properties ->
  forallb (fun kv => wf (snd kv)) properties = true ->
  properties <> [] ->
  forall fuel t,
    (length (members_text properties) < fuel)%nat ->
    parse_members fuel (members_text properties ++ "}"%char :: t) =
    Some (properties, t).
Proof.
  unfold members_text.
  induction 1 as [|[k v] kvs Hv Hvs IH]; intros Hwf Hne fuel t Hfuel;
    [congruence|].
  simpl in Hwf. apply andb_true_iff in Hwf as [Hwfv Hwfvs].
  simpl snd in Hv. unfold parses_back in Hv.
  destruct fuel as [|fuel]; [lia|].
  destruct kvs as [|kv2 kvs].
  - simpl map in *. rewrite join_one in *. unfold member_text in *. simpl fst in *.
    simpl snd in *. rewrite quote_eq in *.
    rewrite !length_app in Hfuel. simpl length in Hfuel.
    rewrite !length_app in Hfuel. simpl length in Hfuel.
    simpl app. rewrite <- ?app_assoc. simpl app.
    rewrite parse_members_step, parse_string_body_quoted.
    simpl skip_ws. cbv iota beta.
    rewrite Hv by (simpl; try lia; reflexivity).
    reflexivity.
  - simpl map in *. rewrite join_cons in *.
    unfold member_text at 1. unfold member_text at 1 in Hfuel.
    simpl fst in *. simpl snd in *. rewrite quote_eq in *.
    rewrite !length_app in Hfuel. simpl length in Hfuel.
    rewrite !length_app in Hfuel. simpl length in Hfuel.
    simpl app. rewrite <- ?app_assoc. simpl app. rewrite <- ?app_assoc.
    rewrite parse_members_step, parse_string_body_quoted.
    simpl skip_ws. cbv iota beta.
    rewrite Hv by (simpl; try lia; reflexivity).
    simpl skip_ws. simpl app. cbv iota beta.
    change [","%char] with (lit ",") in *.
    rewrite IH; [reflexivity|assumption|discriminate|].
    lia.
Qed.

Lemma parse_value_stringify v : wf v = true -> parses_back v.
Proof.
  induction v as [|b|n|s|elements IH|properties IH] using json_ind;
    intros Hwf fuel t Hfuel Ht.
  - destruct fuel; [simpl in Hfuel; lia|]. reflexivity.
  - destruct fuel; [destruct b; simpl in Hfuel; lia|]. destruct b; reflexivity.
  - destruct fuel as [|fuel].
    + destruct (NumberFacts.toString_head n Hwf) as (c & s & E & _).
      simpl in Hfuel. rewrite E in Hfuel. simpl in Hfuel. lia.
    + now apply parse_number_value.
  - destruct fuel; [simpl in Hfuel; lia|].
    simpl stringify. rewrite quote_eq. simpl app. rewrite <- app_assoc.
    simpl parse_value. simpl app. now rewrite parse_string_body_quoted.
  - simpl in Hwf.
    change (stringify (JArr elements))
      with (lit "[" ++ elements_text elements ++ lit "]") in *.
    rewrite !length_app in Hfuel. simpl length in Hfuel.
    destruct fuel as [|fuel]; [lia|].
    simpl app. rewrite <- app_assoc. simpl app.
    destruct elements as [|v vs]; [reflexivity|].
    assert (Hhead : exists c s,
      elements_text (v :: vs) ++ "]"%char :: t = c :: s /\ value_head c = true).
    { simpl in Hwf. apply andb_true_iff in Hwf as [Hwfv _].
      destruct (stringify_head v Hwfv) as (c & s & E & Hc).
      unfold elements_text. destruct vs; simpl map; rewrite ?join_one, ?join_cons, E;
        eexists _, _; (split; [reflexivity|exact Hc]). }
    destruct Hhead as (c & s & E & Hc).
    assert (Hall : Forall parses_back (v :: vs)).
    { apply Forall_forall. intros x Hx. rewrite Forall_forall in IH.
      apply IH; [exact Hx|]. rewrite forallb_forall in Hwf. now apply Hwf. }
    pose proof (parse_elements_text (v :: vs) Hall Hwf ltac:(discriminate)
                  fuel t ltac:(lia)) as P.
    rewrite E in *.
    revert P Hc. clear. each_byte c; intros P Hc; try discriminate Hc;
      simpl; now rewrite P.
  - simpl in Hwf. apply andb_true_iff in Hwf as [Hord Hwf].
    change (stringify (JObj properties))
      with (lit "{" ++ members_text properties ++ lit "}") in *.
    rewrite !length_app in Hfuel. simpl length in Hfuel.
    destruct fuel as [|fuel]; [lia|].
    simpl app. rewrite <- app_assoc. simpl app.
    destruct properties as [|kv kvs]; [reflexivity|].
    assert (Hall : Forall (fun kv => parses_back (snd kv)) (kv :: kvs)).
    { apply Forall_forall. intros x Hx. rewrite Forall_forall in IH.
      apply IH; [exact Hx|]. rewrite forallb_forall in Hwf. now apply Hwf. }
    pose proof (parse_members_text (kv :: kvs) Hall Hwf ltac:(discriminate)
                  fuel t ltac:(lia)) as P.
    assert (E : exists s,
      members_text (kv :: kvs) ++ "}"%char :: t = dquote :: s).
    { unfold members_text. destruct kvs; simpl map;
        rewrite ?join_one, ?join_cons; unfold member_text;
        eexists; reflexivity. }
    destruct E as (s & E). rewrite E in *.
    simpl parse_value. rewrite P.
    now rewrite (ObjFacts.of_entries_wf _ Hord).
Qed.

(** [JSON.parse] undoes [JSON.stringify]. *)
Lemma parse_stringify v : wf v = true -> parse (stringify v) = Some v.
Proof.
  intros Hwf. unfold parse.
  pose proof (parse_value_stringify v Hwf (S (length (stringify v))) []
                ltac:(lia) eq_refl) as P.
  rewrite app_nil_r in P. now rewrite P.
Qed.

End JSONFacts.

Module FuelFacts.
Import JSON.

Lemma skip_ws_length s : (length (skip_ws s) <= length s)%nat.
Proof.
  induction s as [|c s IH]; simpl; [lia|].
  destruct (is_ws c); simpl; lia.
Qed.

Lemma span_length p s a b :
  span p s = (a, b) -> length s = (length a + length b)%nat.
Proof.
  revert a b. induction s as [|c s IH]; simpl; intros a b H.
  - injection H as <- <-. reflexivity.
  - destruct (p c).
    + destruct (span p s) as [a' b'] eqn:E. injection H as <- <-.
      simpl. now rewrite (IH a' b' eq_refl).
    + injection H as <- <-. reflexivity.
Qed.

Lemma parse_fraction_rest s f rest :
  Number.parse_fraction s = Some (f, rest) -> (length rest <= length s)%nat.
Proof.
  unfold Number.parse_fraction. intros H.
  destruct s as [|c s]; [now injection H as <- <-|].
  destruct (Ascii.eqb c ".") eqn:E.
  - apply Ascii.eqb_eq in E. subst c.
    destruct (span Number.is_digit s) as [a b] eqn:Es.
    apply span_length in Es. destruct a; [discriminate|].
    injection H as <- <-. simpl in *. lia.
  - assert (H' : Some (@nil ascii, c :: s) = Some (f, rest)).
    { revert H E. clear. each_byte c; intros H E; try discriminate E; exact H. }
    injection H' as <- <-. lia.
Qed.

Ltac digits_in H :=
  match type of H with
  | context [span Number.is_digit ?s] =>
      let a := fresh "a" in
      let b := fresh "b" in
      let Es := fresh "Es" in
      destruct (span Number.is_digit s) as [a b] eqn:Es;
      apply span_length in Es;
      destruct a; [discriminate H|];
      injection H as <- <-; simpl in *; lia
  end.

Lemma parse_exponent_rest s e rest :
  Number.parse_exponent s = Some (e, rest) -> (length rest <= length s)%nat.
Proof.
  unfold Number.parse_exponent. intros H.
  destruct s as [|c s]; [now injection H as <- <-|].
  each_byte c; try (injection H as <- <-; lia).
  all: destruct s as [|x s2]; [discriminate H|].
  all: each_byte x; digits_in H.
Qed.

Lemma number_body_rest negative s0 n rest :
  match span Number.is_digit s0 with
  | ([], _) => None
  | ("0"%char :: _ :: _, _) => None
  | (i, s1) =>
      match Number.parse_fraction s1 with
      | None => None
      | Some (f, s2) =>
          match Number.parse_exponent s2 with
          | None => None
          | Some (e, s3) =>
              Some (Number.normalize negative (Number.digits_of_chars (i ++ f))
                      (Z.of_nat (length i) + e), s3)
          end
      end
  end = Some (n, rest) -> (length rest < length s0)%nat.
Proof.
  intros E.
  destruct (span Number.is_digit s0) as [i s1] eqn:Es.
  apply span_length in Es.
  destruct i as [|c i]; [discriminate E|].
  assert (E' :
    match Number.parse_fraction s1 with
    | None => None
    | Some (f, s2) =>
        match Number.parse_exponent s2 with
        | None => None
        | Some (e, s3) =>
            Some (Number.normalize negative
                    (Number.digits_of_chars ((c :: i) ++ f))
                    (Z.of_nat (length (c :: i)) + e), s3)
        end
    end = Some (n, rest)).
  { destruct i as [|c2 i].
    - revert E. clear. each_byte c; intros E; exact E.
    - revert E. clear. each_byte c; intros E; try discriminate E; exact E. }
  clear E.
  destruct (Number.parse_fraction s1) as [[f s2]|] eqn:Ef; [|discriminate].
  destruct (Number.parse_exponent s2) as [[e s3]|] eqn:Ee; [|discriminate].
  injection E' as _ <-.
  apply parse_fraction_rest in Ef. apply parse_exponent_rest in Ee.
  simpl in Es. lia.
Qed.

Lemma number_parse_rest s n rest :
  Number.parse s = Some (n, rest) -> (length rest < length s)%nat.
Proof.
  unfold Number.parse. intros H.
  destruct s as [|c s]; [discriminate H|].
  destruct (Ascii.eqb c "-") eqn:E.
  - apply Ascii.eqb_eq in E. subst c. apply number_body_rest in H. simpl. lia.
  - apply (number_body_rest false (c :: s) n rest).
    revert H E. clear. each_byte c; intros H E; try discriminate E; exact H.
Qed.

Local Arguments hex4 : simpl never.
Local Arguments utf8_encode : simpl never.
Local Arguments is_high_surrogate : simpl never.
Local Arguments is_low_surrogate : simpl never.
Local Arguments prepend : simpl never.

(** The equation of [parse_string_body] on a non-empty text. *)
Lemma parse_string_body_cons c s1 :
  parse_string_body (c :: s1) =
  if Ascii.eqb c dquote then Some ([], s1)
  else if Ascii.eqb c backslash then
    match escape s1 with
    | Some (bytes, s') => prepend bytes (parse_string_body s')
    | None => None
    end
  else if (ascii_code c <? 32)%N then None
  else prepend [c] (parse_string_body s1).
Proof.
  cbn [parse_string_body].
  destruct (Ascii.eqb c dquote); [reflexivity|].
  destruct (Ascii.eqb c backslash); [|reflexivity].
  destruct s1 as [|e s2]; [reflexivity|].
  each_byte e; try reflexivity.
  destruct s2 as [|h1 [|h2 [|h3 [|h4 s3]]]]; try reflexivity.
  cbn [escape]. destruct (hex4 h1 h2 h3 h4) as [u|]; [|reflexivity].
  cbv zeta. destruct (is_high_surrogate u); [|reflexivity].
  destruct s3 as [|b [|x [|l1 [|l2 [|l3 [|l4 s4]]]]]]; try reflexivity.
  all: each_byte x; try reflexivity.
  destruct (Ascii.eqb b backslash); [|reflexivity].
  destruct (hex4 l1 l2 l3 l4) as [w|]; [|reflexivity].
  destruct (is_low_surrogate w); reflexivity.
Qed.

Lemma escape_rest s1 bytes s' :
  escape s1 = Some (bytes, s') -> (length s' < length s1)%nat.
Proof.
  unfold escape. intros H.
  assert (Single : forall (pre s3 : jsstring),
    Some (pre, s3) = Some (bytes, s') -> s3 = s').
  { intros u s3 E. now injection E. }
  destruct s1 as [|e s2]; [discriminate H|].
  repeat first
    [ discriminate H
    | apply Single in H; subst; simpl; lia
    | match type of H with
      | context [match ?x with _ => _ end] =>
          destruct x; cbv beta iota zeta in H
      end ].
Qed.

Lemma prepend_Some pre r body rest :
  prepend pre r = Some (body, rest) -> exists body', r = Some (body', rest).
Proof.
  unfold prepend. destruct r as [[body' rest']|]; [|discriminate].
  intros H. injection H as _ <-. now exists body'.
Qed.

Lemma parse_string_body_rest s body rest :
  parse_string_body s = Some (body, rest) -> (length rest < length s)%nat.
Proof.
  remember (length s) as n eqn:En. revert s body rest En.
  induction n as [n IH] using lt_wf_ind. intros s body rest En H.
  destruct s as [|c s1]; [discriminate H|].
  rewrite parse_string_body_cons in H. simpl in En.
  destruct (Ascii.eqb c dquote); [injection H as _ <-; lia|].
  destruct (Ascii.eqb c backslash).
  - destruct (escape s1) as [[bytes s']|] eqn:Ee; [|discriminate H].
    apply escape_rest in Ee. apply prepend_Some in H as [body' H].
    apply (IH (length s') ltac:(lia) s' body' rest eq_refl) in H. lia.
  - destruct (ascii_code c <? 32)%N; [discriminate H|].
    apply prepend_Some in H as [body' H].
    apply (IH (length s1) ltac:(lia) s1 body' rest eq_refl) in H. lia.
Qed.

(** *** Fuel *)

Lemma parse_value_step fuel s :
  parse_value (S fuel) s =
  match skip_ws s with
  | [] => None
  | c :: s1 =>
      match c with
      | "n"%char => expect (lit "null") JNull (c :: s1)
      | "t"%char => expect (lit "true") (JBool true) (c :: s1)
      | "f"%char => expect (lit "false") (JBool false) (c :: s1)
      | "034"%char =>
          match parse_string_body s1 with
          | Some (str, s2) => Some (JStr str, s2)
          | None => None
          end
      | "["%char =>
          match skip_ws s1 with
          | "]"%char :: s2 => Some (JArr [], s2)
          | _ =>
              match parse_elements fuel s1 with
              | Some (elements, s2) => Some (JArr elements, s2)
              | None => None
              end
          end
      | "{"%char =>
          match skip_ws s1 with
          | "}"%char :: s2 => Some (JObj [], s2)
          | _ =>
              match parse_members fuel s1 with
              | Some (members, s2) => Some (JObj (Obj.of_entries members), s2)
              | None => None
              end
          end
      | _ =>
          match Number.parse (c :: s1) with
          | Some (n, s2) => Some (JNum n, s2)
          | None => None
          end
      end
  end.
Proof. reflexivity. Qed.

Lemma parse_members_unfold fuel s :
  parse_members (S fuel) s =
  match skip_ws s with
  | "034"%char :: s1 =>
      match parse_string_body s1 with
      | None => None
      | Some (k, s2) =>
          match skip_ws s2 with
          | ":"%char :: s3 =>
              match parse_value fuel s3 with
              | None => None
              | Some (v, s4) =>
                  match skip_ws s4 with
                  | ","%char :: s5 =>
                      match parse_members fuel s5 with
                      | Some (ms, s6) => Some ((k, v) :: ms, s6)
                      | None => None
                      end
                  | "}"%char :: s5 => Some ([(k, v)], s5)
                  | _ => None
                  end
              end
          | _ => None
          end
      end
  | _ => None
  end.
Proof. reflexivity. Qed.

Lemma expect_rest word v s v' rest :
  word <> [] -> expect word v s = Some (v', rest) ->
  (length rest < length s)%nat.
Proof.
  unfold expect. intros Hw H.
  destruct (starts_with word s) eqn:E; [|discriminate H].
  injection H as _ <-.
  assert (L : (length word <= length s)%nat).
  { clear Hw. revert s E. induction word as [|a w IH]; intros [|b s] E;
      simpl in *; try lia; try discriminate.
    apply andb_true_iff in E as [_ E]. apply IH in E. lia. }
  rewrite length_skipn. destruct word; [congruence|]. simpl in *. lia.
Qed.

(** The values that are not an array or an object are parsed without
    recursion. *)
Lemma parse_value_leaf fuel fuel' s c s1 :
  skip_ws s = c :: s1 ->
  Ascii.eqb c "[" = false -> Ascii.eqb c "{" = false ->
  parse_value (S fuel) s = parse_value (S fuel') s.
Proof.
  intros Ews H1 H2. rewrite !parse_value_step, Ews.
  revert H1 H2. clear. each_byte c; intros H1 H2;
    try discriminate H1; try discriminate H2; reflexivity.
Qed.

Lemma parse_value_leaf_rest fuel s c s1 v rest :
  skip_ws s = c :: s1 ->
  Ascii.eqb c "[" = false -> Ascii.eqb c "{" = false ->
  parse_value (S fuel) s = Some (v, rest) ->
  (length rest < length (c :: s1))%nat.
Proof.
  intros Ews H1 H2 H. rewrite parse_value_step, Ews in H.
  assert (Cases :
    expect (lit "null") JNull (c :: s1) = Some (v, rest) \/
    expect (lit "true") (JBool true) (c :: s1) = Some (v, rest) \/
    expect (lit "false") (JBool false) (c :: s1) = Some (v, rest) \/
    (exists str, parse_string_body s1 = Some (str, rest)) \/
    (exists n, Number.parse (c :: s1) = Some (n, rest))).
  { revert H H1 H2. clear. each_byte c; intros H H1 H2;
      try discriminate H1; try discriminate H2;
      try (left; exact H); try (right; left; exact H);
      try (right; right; left; exact H);
      try (right; right; right; left;
           destruct (parse_string_body s1) as [[str s2]|]; [|discriminate H];
           injection H as _ <-; now exists str);
      right; right; right; right;
      match type of H with
      | context [Number.parse ?t] =>
          destruct (Number.parse t) as [[n s2]|]; [|discriminate H];
          injection H as _ <-; now exists n
      end. }
  destruct Cases as [E|[E|[E|[[str E]|[n E]]]]].
  - apply expect_rest in E; [exact E|discriminate].
  - apply expect_rest in E; [exact E|discriminate].
  - apply expect_rest in E; [exact E|discriminate].
  - apply parse_string_body_rest in E. simpl. lia.
  - now apply number_parse_rest in E.
Qed.

Lemma head_is_length x l :
  head_is x l = true -> length l = S (length (tl l)).
Proof. destruct l; [discriminate|reflexivity]. Qed.

Lemma parse_value_array fuel s s1 :
  skip_ws s = "["%char :: s1 ->
  parse_value (S fuel) s =
  if head_is "]" (skip_ws s1) then Some (JArr [], tl (skip_ws s1))
  else
    match parse_elements fuel s1 with
    | Some (elements, s2) => Some (JArr elements, s2)
    | None => None
    end.
Proof.
  intros Ews. rewrite parse_value_step, Ews. cbv beta iota.
  destruct (skip_ws s1) as [|c s2]; [reflexivity|].
  each_byte c; reflexivity.
Qed.

Lemma parse_value_object fuel s s1 :
  skip_ws s = "{"%char :: s1 ->
  parse_value (S fuel) s =
  if head_is "}" (skip_ws s1) then Some (JObj [], tl (skip_ws s1))
  else
    match parse_members fuel s1 with
    | Some (members, s2) => Some (JObj (Obj.of_entries members), s2)
    | None => None
    end.
Proof.
  intros Ews. rewrite parse_value_step, Ews. cbv beta iota.
  destruct (skip_ws s1) as [|c s2]; [reflexivity|].
  each_byte c; reflexivity.
Qed.

Lemma parse_elements_tests fuel s :
  parse_elements (S fuel) s =
  match parse_value fuel s with
  | None => None
  | Some (v, s1) =>
      if head_is "," (skip_ws s1) then
        match parse_elements fuel (tl (skip_ws s1)) with
        | Some (vs, s3) => Some (v :: vs, s3)
        | None => None
        end
      else if head_is "]" (skip_ws s1) then Some ([v], tl (skip_ws s1))
      else None
  end.
Proof.
  rewrite JSONFacts.parse_elements_step.
  destruct (parse_value fuel s) as [[v s1]|]; [|reflexivity].
  destruct (skip_ws s1) as [|c s2]; [reflexivity|].
  each_byte c; reflexivity.
Qed.

Lemma parse_members_tests fuel s :
  parse_members (S fuel) s =
  if head_is dquote (skip_ws s) then
    match parse_string_body (tl (skip_ws s)) with
    | None => None
    | Some (k, s2) =>
        if head_is ":" (skip_ws s2) then
          match parse_value fuel (tl (skip_ws s2)) with
          | None => None
          | Some (v, s4) =>
              if head_is "," (skip_ws s4) then
                match parse_members fuel (tl (skip_ws s4)) with
                | Some (ms, s6) => Some ((k, v) :: ms, s6)
                | None => None
                end
              else if head_is "}" (skip_ws s4) then
                Some ([(k, v)], tl (skip_ws s4))
              else None
          end
        else None
    end
  else None.
Proof.
  rewrite parse_members_unfold.
  destruct (skip_ws s) as [|c s1]; [reflexivity|].
  each_byte c; try reflexivity.
  cbv beta iota. simpl tl. simpl head_is.
  destruct (parse_string_body s1) as [[k s2]|]; [|reflexivity].
  destruct (skip_ws s2) as [|c s3]; [reflexivity|].
  each_byte c; try reflexivity.
  cbv beta iota. simpl tl. simpl head_is.
  destruct (parse_value fuel s3) as [[v s4]|]; [|reflexivity].
  destruct (skip_ws s4) as [|c s5]; [reflexivity|].
  each_byte c; reflexivity.
Qed.

Lemma fuel_step fuel :
  value_fuel fuel /\ elements_fuel fuel /\ members_fuel fuel ->
  value_fuel (S fuel) /\ elements_fuel (S fuel) /\ members_fuel (S fuel).
Proof.
  intros (IHv & IHe & IHm). split; [|split].
  - (* values *)
    intros s v rest H.
    pose proof (skip_ws_length s) as Lws.
    destruct (skip_ws s) as [|c s1] eqn:Ews;
      [rewrite parse_value_step, Ews in H; discriminate H|].
    simpl in Lws.
    destruct (Ascii.eqb c "[") eqn:Ea; [|destruct (Ascii.eqb c "{") eqn:Eo].
    + apply Ascii.eqb_eq in Ea. subst c.
      rewrite (parse_value_array _ _ _ Ews) in H.
      pose proof (skip_ws_length s1) as L1.
      destruct (head_is "]" (skip_ws s1)) eqn:Eh.
      * injection H as <- <-. pose proof (head_is_length _ _ Eh) as Lh.
        split; [lia|]. intros [|g] Hg; [lia|].
        rewrite (parse_value_array _ _ _ Ews), Eh. reflexivity.
      * destruct (parse_elements fuel s1) as [[els s2]|] eqn:Ee;
          [|discriminate H].
        injection H as <- <-. destruct (IHe _ _ _ Ee) as [Lr Hf].
        split; [lia|]. intros [|g] Hg; [lia|].
        rewrite (parse_value_array _ _ _ Ews), Eh, Hf by lia. reflexivity.
    + apply Ascii.eqb_eq in Eo. subst c.
      rewrite (parse_value_object _ _ _ Ews) in H.
      pose proof (skip_ws_length s1) as L1.
      destruct (head_is "}" (skip_ws s1)) eqn:Eh.
      * injection H as <- <-. pose proof (head_is_length _ _ Eh) as Lh.
        split; [lia|]. intros [|g] Hg; [lia|].
        rewrite (parse_value_object _ _ _ Ews), Eh. reflexivity.
      * destruct (parse_members fuel s1) as [[ms s2]|] eqn:Ee;
          [|discriminate H].
        injection H as <- <-. destruct (IHm _ _ _ Ee) as [Lr Hf].
        split; [lia|]. intros [|g] Hg; [lia|].
        rewrite (parse_value_object _ _ _ Ews), Eh, Hf by lia. reflexivity.
    + pose proof (parse_value_leaf_rest _ _ _ _ _ _ Ews Ea Eo H) as Lr.
      simpl in Lr. split; [lia|]. intros [|g] Hg; [lia|].
      now rewrite (parse_value_leaf g fuel _ _ _ Ews Ea Eo).
  - (* elements *)
    intros s vs rest H. rewrite parse_elements_tests in H.
    destruct (parse_value fuel s) as [[v s1]|] eqn:Ev; [|discriminate H].
    destruct (IHv _ _ _ Ev) as [L1 Hv].
    pose proof (skip_ws_length s1) as Lws.
    destruct (head_is "," (skip_ws s1)) eqn:Ec.
    + pose proof (head_is_length _ _ Ec) as Lh.
      destruct (parse_elements fuel (tl (skip_ws s1))) as [[vs' s3]|] eqn:Ee;
        [|discriminate H].
      injection H as <- <-. destruct (IHe _ _ _ Ee) as [L3 He].
      split; [lia|]. intros [|g] Hg; [lia|].
      rewrite parse_elements_tests, Hv, Ec, He by lia. reflexivity.
    + destruct (head_is "]" (skip_ws s1)) eqn:Eb; [|discriminate H].
      pose proof (head_is_length _ _ Eb) as Lh.
      injection H as <- <-.
      split; [lia|]. intros [|g] Hg; [lia|].
      rewrite parse_elements_tests, Hv, Ec, Eb by lia. reflexivity.
  - (* members *)
    intros s ms rest H. rewrite parse_members_tests in H.
    pose proof (skip_ws_length s) as Lws.
    destruct (head_is dquote (skip_ws s)) eqn:Eq; [|discriminate H].
    pose proof (head_is_length _ _ Eq) as Lq.
    destruct (parse_string_body (tl (skip_ws s))) as [[k s2]|] eqn:Ek;
      [|discriminate H].
    pose proof (parse_string_body_rest _ _ _ Ek) as Lk.
    pose proof (skip_ws_length s2) as Lws2.
    destruct (head_is ":" (skip_ws s2)) eqn:Ec; [|discriminate H].
    pose proof (head_is_length _ _ Ec) as Lc.
    destruct (parse_value fuel (tl (skip_ws s2))) as [[v s4]|] eqn:Ev;
      [|discriminate H].
    destruct (IHv _ _ _ Ev) as [L4 Hv].
    pose proof (skip_ws_length s4) as Lws4.
    destruct (head_is "," (skip_ws s4)) eqn:Em.
    + pose proof (head_is_length _ _ Em) as Lm.
      destruct (parse_members fuel (tl (skip_ws s4))) as [[ms' s6]|] eqn:Ee;
        [|discriminate H].
      injection H as <- <-. destruct (IHm _ _ _ Ee) as [L6 Hm].
      split; [lia|]. intros [|g] Hg; [lia|].
      rewrite parse_members_tests, Eq, Ek, Ec, Hv, Em, Hm by lia.
      reflexivity.
    + destruct (head_is "}" (skip_ws s4)) eqn:Eb; [|discriminate H].
      pose proof (head_is_length _ _ Eb) as Lb.
      injection H as <- <-.
      split; [lia|]. intros [|g] Hg; [lia|].
      rewrite parse_members_tests, Eq, Ek, Ec, Hv, Em, Eb by lia.
      reflexivity.
Qed.

Lemma fuel_free fuel :
  value_fuel fuel /\ elements_fuel fuel /\ members_fuel fuel.
Proof.
  induction fuel as [|fuel IH]; [|now apply fuel_step].
  split; [|split]; intros s v rest H; discriminate H.
Qed.

(** The result of [parse_value] with any fuel is its result with the
    fuel [JSON.parse] gives it. *)
Lemma parse_value_enough fuel s v rest :
  parse_value fuel s = Some (v, rest) ->
  parse_value (S (length s)) s = Some (v, rest).
Proof.
  intros H. destruct (fuel_free fuel) as (Hv & _).
  destruct (Hv _ _ _ H) as [_ Hf]. apply Hf. lia.
Qed.

(** When [JSON.parse] fails, no fuel makes the text a JSON text. *)
Lemma parse_None_any_fuel text :
  parse text = None ->
  forall fuel v rest,
    parse_value fuel text = Some (v, rest) -> skip_ws rest <> [].
Proof.
  unfold parse. intros H fuel v rest Hv.
  rewrite (parse_value_enough _ _ _ _ Hv) in H.
  destruct (skip_ws rest); [discriminate H|discriminate].
Qed.

End FuelFacts.

Lemma mem_char_app c a b : mem_char c (a ++ b) = mem_char c a || mem_char c b.
Proof. apply existsb_app. Qed.

Lemma starts_with_app p s : starts_with p (p ++ s) = true.
Proof.
  induction p as [|c p IH]; [reflexivity|].
  simpl. now rewrite Ascii.eqb_refl, IH.
Qed.

Lemma includes_app a needle b : includes (a ++ needle ++ b) needle = true.
Proof.
  induction a as [|c a IH].
  - simpl app. destruct (needle ++ b) eqn:E; simpl; rewrite <- E;
      now rewrite starts_with_app.
  - simpl. rewrite IH. apply orb_true_r.
Qed.

Lemma HONO_DOMAIN_cases NODE_ENV :
  HONO_DOMAIN NODE_ENV = lit "" \/
  HONO_DOMAIN NODE_ENV = lit "https://api.my-production-app.com".
Proof.
  unfold HONO_DOMAIN. destruct NODE_ENV as [env|]; [|now right].
  destruct (jsstring_eqb env (lit "development")); [now left|now right].
Qed.

Lemma HONO_DOMAIN_marks NODE_ENV :
  mem_char "?" (HONO_DOMAIN NODE_ENV) = false /\
  mem_char "#" (HONO_DOMAIN NODE_ENV) = false.
Proof. destruct (HONO_DOMAIN_cases NODE_ENV) as [-> | ->]; split; reflexivity. Qed.

Section Dispatch.

Variable NODE_ENV : option jsstring.
Variables (method path : jsstring).
Variable queryStringParams : Obj.obj prim.
Variable payload : Obj.obj JSON.json.
Variable additionalHeaders : Obj.obj jsstring.

Lemma apiRequest_unfold :
  apiRequest NODE_ENV method path queryStringParams payload additionalHeaders =
  ConsoleLog [LogString (lit "FETCH URL (fetch-request):"); LogString (request_url NODE_ENV path queryStringParams)]
    (Fetch (request_url NODE_ENV path queryStringParams) (request_options method payload additionalHeaders) (fun response =>
       if negb (Response.ok response) then
         ConsoleLog [LogString (lit "ERROR RESPONSE:"); LogResponse response]
           (await (Response.json response) (fun result =>
              ConsoleLog [LogString (lit "ERROR RESULT:"); LogJson result]
                (Throw
                   (Error
                      (error_message response method (request_url NODE_ENV path queryStringParams) (request_options method payload additionalHeaders)
                         result)))))
       else await (Response.json response) Return)).
Proof.
  unfold apiRequest, request_url, request_options.
  destruct queryStringParams, payload; reflexivity.
Qed.

Lemma requests_run fetch : requests (run fetch
       (apiRequest NODE_ENV method path queryStringParams payload
          additionalHeaders)) = [((request_url NODE_ENV path queryStringParams), (request_options method payload additionalHeaders))].
Proof.
  rewrite apiRequest_unfold. simpl.
  destruct (fetch (request_url NODE_ENV path queryStringParams) (request_options method payload additionalHeaders)) as [response|e]; [|reflexivity].
  simpl. destruct (negb (Response.ok response)); simpl;
    destruct (Response.json response); reflexivity.
Qed.

Lemma result_run fetch response :
  fetch (request_url NODE_ENV path queryStringParams) (request_options method payload additionalHeaders) = Resolved response ->
  result (run fetch
       (apiRequest NODE_ENV method path queryStringParams payload
          additionalHeaders)) =
  if Response.ok response then Response.json response
  else
    match Response.json response with
    | Resolved decoded =>
        Rejected
          (Error (error_message response method (request_url NODE_ENV path queryStringParams) (request_options method payload additionalHeaders) decoded))
    | Rejected e => Rejected e
    end.
Proof.
  intros H. rewrite apiRequest_unfold. simpl. rewrite H. simpl.
  destruct (Response.ok response); simpl;
    destruct (Response.json response); reflexivity.
Qed.

End Dispatch.


Lemma absent_forallb c s :
  mem_char c s = false -> forallb (fun x => negb (Ascii.eqb x c)) s = true.
Proof.
  unfold mem_char. induction s as [|x s IH]; simpl; [reflexivity|].
  intros H. apply orb_false_iff in H as [H1 H2].
  rewrite Ascii.eqb_sym, H1. simpl. now apply IH.
Qed.

Lemma forallb_absent c s :
  forallb (fun x => negb (Ascii.eqb x c)) s = true -> mem_char c s = false.
Proof.
  unfold mem_char. induction s as [|x s IH]; simpl; [reflexivity|].
  intros H. apply andb_true_iff in H as [H1 H2].
  apply negb_true_iff in H1. rewrite Ascii.eqb_sym, H1. simpl. now apply IH.
Qed.

Lemma toString_absent params :
  mem_char "?" (URLSearchParams.toString params) = false /\
  mem_char "#" (URLSearchParams.toString params) = false.
Proof.
  pose proof (URLFacts.toString_marks params) as H.
  split; apply forallb_absent;
    (eapply URLFacts.forallb_weaken; [|exact H]);
    intros x Hx; apply andb_true_iff in Hx as [H1 H2]; assumption.
Qed.

(** The query of the URL of a call is the serialized parameters. *)
Lemma url_query_request_url NODE_ENV path queryStringParams :
  mem_char "?" path = false -> mem_char "#" path = false ->
  url_query (request_url NODE_ENV path queryStringParams) =
  URLSearchParams.toString (URLSearchParams.of_record queryStringParams).
Proof.
  intros Hq Hf. unfold url_query, request_url.
  destruct (HONO_DOMAIN_marks NODE_ENV) as [Bq Bf].
  destruct (toString_absent (URLSearchParams.of_record queryStringParams))
    as [Tq Tf].
  destruct queryStringParams as [|kv rest].
  - assert (Cf : URLSearchParams.cut "#"
                   (HONO_DOMAIN NODE_ENV ++ lit "/api" ++ path ++ []) = None).
    { apply URLFacts.cut_absent, absent_forallb.
      rewrite !mem_char_app, Bf, Hf. reflexivity. }
    assert (Cq : URLSearchParams.cut "?"
                   (HONO_DOMAIN NODE_ENV ++ lit "/api" ++ path ++ []) = None).
    { apply URLFacts.cut_absent, absent_forallb.
      rewrite !mem_char_app, Bq, Hq. reflexivity. }
    now rewrite Cf, Cq.
  - set (qs := URLSearchParams.toString (URLSearchParams.of_record (kv :: rest))) in *.
    rewrite (URLFacts.cut_absent "#").
    + replace (HONO_DOMAIN NODE_ENV ++ lit "/api" ++ path ++ lit "?" ++ qs)
        with ((HONO_DOMAIN NODE_ENV ++ lit "/api" ++ path) ++ "?"%char :: qs)
        by (now rewrite <- !app_assoc).
      rewrite URLFacts.cut_app; [reflexivity|].
      apply absent_forallb. rewrite !mem_char_app, Bq, Hq. reflexivity.
    + apply absent_forallb. rewrite !mem_char_app, Bf, Hf, Tf. reflexivity.
Qed.

Lemma entries_of_record query :
  entries (URLSearchParams.of_record query) =
  map (fun kv => (fst kv, PStr (ToString (snd kv)))) query.
Proof. unfold entries, URLSearchParams.of_record. now rewrite map_map. Qed.

Lemma entries_of_record_strings query :
  forallb (fun kv => is_string (snd kv)) query = true ->
  entries (URLSearchParams.of_record query) = query.
Proof.
  rewrite entries_of_record.
  induction query as [|[k v] rest IH]; [reflexivity|].
  simpl. intros H. apply andb_true_iff in H as [Hv Hrest].
  destruct v; try discriminate Hv. simpl. now rewrite IH.
Qed.

Lemma entries_of_record_typed query :
  existsb (fun kv => negb (is_string (snd kv))) query = true ->
  entries (URLSearchParams.of_record query) <> query.
Proof.
  rewrite entries_of_record.
  induction query as [|[k v] rest IH]; [discriminate|].
  simpl. intros Hsome E. injection E as Ev Erest.
  destruct v; try discriminate Ev. now apply IH.
Qed.

(** * The claims *)

Section Claims.

Variable NODE_ENV : option jsstring.
Variable fetch : transport.
Variables (method path : jsstring).
Variable queryStringParams : Obj.obj prim.
Variable payload : Obj.obj JSON.json.
Variable additionalHeaders : Obj.obj jsstring.

Lemma ok_false response :
  Response.status response < 200 \/ 299 < Response.status response ->
  Response.ok response = false.
Proof. unfold Response.ok. intros H. apply andb_false_iff. lia. Qed.

Lemma ok_true response :
  200 <= Response.status response <= 299 -> Response.ok response = true.
Proof. unfold Response.ok. intros H. apply andb_true_iff. lia. Qed.

Lemma the_request url options :
  requests (run fetch
       (apiRequest NODE_ENV method path queryStringParams payload
          additionalHeaders)) = [(url, options)] ->
  url = request_url NODE_ENV path queryStringParams /\
  options = request_options method payload additionalHeaders.
Proof.
  rewrite requests_run. intros H. now injection H as <- <-.
Qed.

(** C1. The URL handed to the transport is the configured base, then
    [/api], then the path, then a question mark and the serialized
    parameters when [queryStringParams] has a property and nothing
    otherwise; with no property, and a path without a question mark, the
    URL has no question mark. *)
Theorem dispatched_url :
  mem_char "?" path = false ->
  map fst
    (requests
       (run fetch
          (apiRequest NODE_ENV method path queryStringParams payload
             additionalHeaders))) =
  [HONO_DOMAIN NODE_ENV ++ lit "/api" ++ path ++
   match queryStringParams with
   | [] => lit ""
   | _ :: _ =>
       lit "?" ++
       URLSearchParams.toString (URLSearchParams.of_record queryStringParams)
   end] /\
  (queryStringParams = [] ->
   forall url,
     In url
       (map fst
          (requests
             (run fetch
                (apiRequest NODE_ENV method path queryStringParams payload
                   additionalHeaders)))) ->
     mem_char "?" url = false).
Proof.
  intros Hpath. rewrite requests_run. split; [reflexivity|].
  intros -> url [<-|[]]. unfold request_url.
  destruct (HONO_DOMAIN_marks NODE_ENV) as [Bq _]. cbn [fst].
  rewrite !mem_char_app, Bq, Hpath. reflexivity.
Qed.

(** C2. When the transport answers with a status outside 200-299 and a
    body that is JSON, the call rejects with one [Error] whose message
    is the template filled with the status code, the status text, the
    method, the URL, the request body and the serialized decoded body.
    With a 404 answer of body [{"error":"not found"}], the message of
    [apiRequest("GET", "/users/999")] contains [404], [GET] and
    [not found]. *)
Theorem failure_message url options response decoded :
  requests (run fetch
       (apiRequest NODE_ENV method path queryStringParams payload
          additionalHeaders)) = [(url, options)] ->
  fetch url options = Resolved response ->
  Response.status response < 200 \/ 299 < Response.status response ->
  JSON.parse (Response.text response) = Some decoded ->
  result (run fetch
       (apiRequest NODE_ENV method path queryStringParams payload
          additionalHeaders)) =
  Rejected
    (Error
       ([newline] ++ lit "      RESPONSE STATUS: " ++
        Number.toString (Number.of_Z (Response.status response)) ++
        lit " | " ++ Response.statusText response ++
        [newline] ++ lit "      METHOD: " ++ method ++
        [newline] ++ lit "      URL: " ++ url ++
        [newline] ++ lit "      PAYLOAD: " ++
        match RequestInit.body options with
        | Some text => text
        | None => lit "undefined"
        end ++
        [newline] ++ lit "      ERRORS: " ++ JSON.stringify decoded ++
        [newline] ++ lit "    ")) /\
  exists message,
    result
      (run (mock not_found_response)
         (apiRequest NODE_ENV (lit "GET") (lit "/users/999") [] [] [])) =
    Rejected (Error message) /\
    includes message (lit "404") = true /\
    includes message (lit "GET") = true /\
    includes message (lit "not found") = true.
Proof.
  intros Hreq Hfetch Hstatus Hjson.
  destruct (the_request _ _ Hreq) as [-> ->]. split.
  - rewrite (result_run _ _ _ _ _ _ _ _ Hfetch).
    rewrite (ok_false _ Hstatus). unfold Response.json. rewrite Hjson.
    reflexivity.
  - eexists. split.
    + rewrite (result_run _ _ _ _ _ _ _
                 not_found_response eq_refl).
      reflexivity.
    + unfold request_url.
      destruct (HONO_DOMAIN_cases NODE_ENV) as [-> | ->];
        repeat split; vm_compute; reflexivity.
Qed.

(** C3. When the transport answers with a status in 200-299 and a body
    that is JSON, the call resolves to the decoded body.  With a 200
    answer of body [{"id":1}], [apiRequest("GET", "/users/1")] resolves to
    the object whose property [id] is 1. *)
Theorem success_value url options response decoded :
  requests (run fetch
       (apiRequest NODE_ENV method path queryStringParams payload
          additionalHeaders)) = [(url, options)] ->
  fetch url options = Resolved response ->
  200 <= Response.status response <= 299 ->
  JSON.parse (Response.text response) = Some decoded ->
  result (run fetch
       (apiRequest NODE_ENV method path queryStringParams payload
          additionalHeaders)) = Resolved decoded /\
  result
    (run (mock ok_response)
       (apiRequest NODE_ENV (lit "GET") (lit "/users/1") [] [] [])) =
  Resolved (JSON.JObj [(lit "id", JSON.JNum (Number.of_Z 1))]).
Proof.
  intros Hreq Hfetch Hstatus Hjson.
  destruct (the_request _ _ Hreq) as [-> ->]. split.
  - rewrite (result_run _ _ _ _ _ _ _ _ Hfetch).
    rewrite (ok_true _ Hstatus). unfold Response.json. now rewrite Hjson.
  - rewrite (result_run _ _ _ _ _ _ _
               ok_response eq_refl).
    reflexivity.
Qed.

(** C4. With no property in [payload] the options handed to the transport
    have no body.  With a property, the body is [JSON.stringify(payload)],
    and [JSON.parse] of that body is the payload again. *)
Theorem request_body :
  JSON.wf (JSON.JObj payload) = true ->
  (payload = [] ->
   map (fun request => RequestInit.body (snd request))
     (requests (run fetch
       (apiRequest NODE_ENV method path queryStringParams payload
          additionalHeaders))) = [None]) /\
  (payload <> [] ->
   exists text,
     map (fun request => RequestInit.body (snd request))
       (requests (run fetch
       (apiRequest NODE_ENV method path queryStringParams payload
          additionalHeaders))) = [Some text] /\
     text = JSON.stringify (JSON.JObj payload) /\
     JSON.parse text = Some (JSON.JObj payload)).
Proof.
  intros Hwf. rewrite requests_run. split.
  - intros ->. reflexivity.
  - intros Hne. exists (JSON.stringify (JSON.JObj payload)).
    split; [|split].
    + unfold request_options. destruct payload; [congruence|reflexivity].
    + reflexivity.
    + now apply JSONFacts.parse_stringify.
Qed.

(** C5. The headers handed to the transport are the default header,
    [Content-Type: application/json], merged with [additionalHeaders]:
    a name of [additionalHeaders] has the caller's value, any other name
    has its default value if it has one. *)
Theorem merged_headers :
  Obj.wf additionalHeaders = true ->
  exists url options,
    requests (run fetch
       (apiRequest NODE_ENV method path queryStringParams payload
          additionalHeaders)) = [(url, options)] /\
    forall name,
      Obj.get name (RequestInit.headers options) =
      match Obj.get name additionalHeaders with
      | Some value => Some value
      | None =>
          Obj.get name [(lit "Content-Type", lit "application/json")]
      end.
Proof.
  intros Hwf. eexists _, _. split; [apply requests_run|].
  intros name. unfold request_options. cbn [RequestInit.headers].
  now apply ObjFacts.get_spread.
Qed.

(** C6, as the code has it.  With a property in [queryStringParams], the
    dispatched URL ends with a question mark and a query string (the
    query of the URL, when the path has neither [?] nor [#]); parsing
    it yields the keys of [queryStringParams], in order, each with the
    string form of its value.  These are the pairs of
    [queryStringParams] exactly when every value is a string. *)
Theorem query_roundtrip url options :
  queryStringParams <> [] ->
  requests
    (run fetch
       (apiRequest NODE_ENV method path queryStringParams payload
          additionalHeaders)) = [(url, options)] ->
  exists query,
    url = HONO_DOMAIN NODE_ENV ++ lit "/api" ++ path ++ lit "?" ++ query /\
    (mem_char "?" path = false -> mem_char "#" path = false ->
     url_query url = query) /\
    URLSearchParams.parse query =
    map (fun kv => (fst kv, ToString (snd kv))) queryStringParams /\
    (entries (URLSearchParams.parse query) = queryStringParams <->
     forallb (fun kv => is_string (snd kv)) queryStringParams = true).
Proof.
  intros Hne Hreq. destruct (the_request _ _ Hreq) as [-> _].
  exists (URLSearchParams.toString
            (URLSearchParams.of_record queryStringParams)).
  rewrite URLFacts.parse_serialized. split; [|split; [|split]].
  - unfold request_url. destruct queryStringParams; [congruence|reflexivity].
  - apply url_query_request_url.
  - reflexivity.
  - split.
    + intros E.
      destruct (forallb (fun kv => is_string (snd kv)) queryStringParams)
        eqn:Eall; [reflexivity|].
      exfalso. revert E. apply entries_of_record_typed.
      clear - Eall. induction queryStringParams as [|kv rest IH];
        [discriminate Eall|].
      simpl in *. destruct (is_string (snd kv)); [now apply IH|reflexivity].
    + apply entries_of_record_strings.
Qed.

(** C7. When the transport answers with a status outside 200-299 and a
    body that is not JSON, the call rejects with the SyntaxError of the
    decoding, and with no [Error] of the template. *)
Theorem failure_decode_error url options response :
  requests (run fetch
       (apiRequest NODE_ENV method path queryStringParams payload
          additionalHeaders)) = [(url, options)] ->
  fetch url options = Resolved response ->
  Response.status response < 200 \/ 299 < Response.status response ->
  JSON.parse (Response.text response) = None ->
  result (run fetch
       (apiRequest NODE_ENV method path queryStringParams payload
          additionalHeaders)) = Rejected SyntaxError /\
  forall message, result (run fetch
       (apiRequest NODE_ENV method path queryStringParams payload
          additionalHeaders)) <> Rejected (Error message).
Proof.
  intros Hreq Hfetch Hstatus Hjson.
  destruct (the_request _ _ Hreq) as [-> ->].
  rewrite (result_run _ _ _ _ _ _ _ _ Hfetch).
  rewrite (ok_false _ Hstatus). unfold Response.json. rewrite Hjson.
  split; [reflexivity|discriminate].
Qed.

(** C8. When the transport answers with a status in 200-299 and a body
    that is not JSON, the call rejects with the SyntaxError of the
    decoding. *)
Theorem success_decode_error url options response :
  requests (run fetch
       (apiRequest NODE_ENV method path queryStringParams payload
          additionalHeaders)) = [(url, options)] ->
  fetch url options = Resolved response ->
  200 <= Response.status response <= 299 ->
  JSON.parse (Response.text response) = None ->
  result (run fetch
       (apiRequest NODE_ENV method path queryStringParams payload
          additionalHeaders)) = Rejected SyntaxError.
Proof.
  intros Hreq Hfetch Hstatus Hjson.
  destruct (the_request _ _ Hreq) as [-> ->].
  rewrite (result_run _ _ _ _ _ _ _ _ Hfetch).
  rewrite (ok_true _ Hstatus). unfold Response.json. now rewrite Hjson.
Qed.

(** C9. With no property in [payload], a status outside 200-299 and a
    body that is JSON, the message of the error contains
    [PAYLOAD: undefined]. *)
Theorem failure_message_without_payload url options response decoded :
  payload = [] ->
  requests (run fetch
       (apiRequest NODE_ENV method path queryStringParams payload
          additionalHeaders)) = [(url, options)] ->
  fetch url options = Resolved response ->
  Response.status response < 200 \/ 299 < Response.status response ->
  JSON.parse (Response.text response) = Some decoded ->
  RequestInit.body options = None /\
  exists message,
    result (run fetch
       (apiRequest NODE_ENV method path queryStringParams payload
          additionalHeaders)) = Rejected (Error message) /\
    includes message (lit "PAYLOAD: undefined") = true.
Proof.
  intros Hpayload Hreq Hfetch Hstatus Hjson.
  destruct (the_request _ _ Hreq) as [-> ->].
  assert (Hbody : RequestInit.body
                    (request_options method payload additionalHeaders) = None)
    by now rewrite Hpayload.
  split; [exact Hbody|]. eexists. split.
  - rewrite (result_run _ _ _ _ _ _ _ _ Hfetch).
    rewrite (ok_false _ Hstatus). unfold Response.json. rewrite Hjson.
    reflexivity.
  - unfold error_message. rewrite Hbody.
    match goal with
    | |- includes (?a ++ ?b ++ ?c ++ ?d ++ ?e ++ ?f ++ ?g ++ ?h ++ ?i ++ ?j ++
                   ?k ++ ?l ++ ?m ++ ?n ++ ?rest) _ = true =>
        replace (a ++ b ++ c ++ d ++ e ++ f ++ g ++ h ++ i ++ j ++ k ++ l ++
                 m ++ n ++ rest)
          with ((a ++ b ++ c ++ d ++ e ++ f ++ g ++ h ++ i ++ j ++ k ++ l ++
                 lit "      ") ++ lit "PAYLOAD: undefined" ++ rest)
    end.
    + apply includes_app.
    + rewrite <- !app_assoc. do 12 f_equal.
Qed.

(** C10. With a property in [queryStringParams] and a value that is not a
    string, the query string of the dispatched URL is the serialization
    of the keys with the string forms of the values; parsing it yields
    these string forms, not the pairs of [queryStringParams]. *)
Theorem query_coercion url options :
  queryStringParams <> [] ->
  existsb (fun kv => negb (is_string (snd kv))) queryStringParams = true ->
  requests
    (run fetch
       (apiRequest NODE_ENV method path queryStringParams payload
          additionalHeaders)) = [(url, options)] ->
  exists query,
    url = HONO_DOMAIN NODE_ENV ++ lit "/api" ++ path ++ lit "?" ++ query /\
    query =
    URLSearchParams.toString
      (map (fun kv => (fst kv, ToString (snd kv))) queryStringParams) /\
    entries (URLSearchParams.parse query) =
    map (fun kv => (fst kv, PStr (ToString (snd kv)))) queryStringParams /\
    entries (URLSearchParams.parse query) <> queryStringParams.
Proof.
  intros Hne Hsome Hreq.
  destruct (the_request _ _ Hreq) as [-> _].
  exists (URLSearchParams.toString
            (URLSearchParams.of_record queryStringParams)).
  rewrite URLFacts.parse_serialized. split; [|split; [|split]].
  - unfold request_url. destruct queryStringParams; [congruence|reflexivity].
  - reflexivity.
  - apply entries_of_record.
  - now apply entries_of_record_typed.
Qed.

End Claims.

(** ** The claims at the examples *)

Lemma dispatched_url_witness :
  mem_char "?" (lit "/search") = false /\
  map fst
    (requests
       (run (mock ok_response)
          (apiRequest (Some (lit "development")) (lit "GET") (lit "/search")
             search_params [] []))) =
  [lit "/api/search?q=comfortable+shoes&limit=10&offset=0"].
Proof.
  split; [reflexivity|].
  exact (proj1 (dispatched_url (Some (lit "development")) (mock ok_response)
                  (lit "GET") (lit "/search") search_params [] [] eq_refl)).
Defined.

Lemma failure_message_witness :
  result
    (run (mock not_found_response)
       (apiRequest None (lit "GET") (lit "/users/999") [] [] [])) =
  Rejected
    (Error
       ([newline] ++ lit "      RESPONSE STATUS: 404 | Not Found" ++
        [newline] ++ lit "      METHOD: GET" ++
        [newline] ++
        lit "      URL: https://api.my-production-app.com/api/users/999" ++
        [newline] ++ lit "      PAYLOAD: undefined" ++
        [newline] ++ lit "      ERRORS: " ++ not_found_body ++
        [newline] ++ lit "    ")).
Proof.
  refine (proj1 (failure_message None (mock not_found_response)
                  (lit "GET") (lit "/users/999") [] [] []
                  (lit "https://api.my-production-app.com/api/users/999")
                  (RequestInit.make (lit "GET")
                     [(lit "Content-Type", lit "application/json")] None)
                  not_found_response
                  (JSON.JObj [(lit "error", JSON.JStr (lit "not found"))])
                  _ _ _ _));
    [reflexivity|reflexivity|cbn; lia|reflexivity].
Defined.

Lemma success_value_witness :
  result
    (run (mock ok_response)
       (apiRequest None (lit "GET") (lit "/users/1") [] [] [])) =
  Resolved (JSON.JObj [(lit "id", JSON.JNum (Number.Finite false [Number.D1] 1))]).
Proof.
  refine (proj1 (success_value None (mock ok_response)
                  (lit "GET") (lit "/users/1") [] [] []
                  (lit "https://api.my-production-app.com/api/users/1")
                  (RequestInit.make (lit "GET")
                     [(lit "Content-Type", lit "application/json")] None)
                  ok_response
                  (JSON.JObj [(lit "id", JSON.JNum (Number.of_Z 1))])
                  _ _ _ _));
    [reflexivity|reflexivity|cbn; lia|reflexivity].
Defined.

Lemma request_body_witness :
  JSON.wf (JSON.JObj product) = true /\
  exists text,
    map (fun request => RequestInit.body (snd request))
      (requests
         (run (mock ok_response)
            (apiRequest None (lit "POST") (lit "/products/create-product") []
               product []))) = [Some text] /\
    text =
    lit "{" ++ quoted "name" ++ lit ":" ++ quoted "T-Shirt" ++ lit "," ++
    quoted "price" ++ lit ":2500}" /\
    JSON.parse text = Some (JSON.JObj product).
Proof.
  split; [reflexivity|].
  refine (proj2 (request_body None (mock ok_response) (lit "POST")
                   (lit "/products/create-product") [] product [] _) _);
    [reflexivity|discriminate].
Defined.

Lemma merged_headers_witness :
  Obj.wf plain_text_headers = true /\
  exists url options,
    requests
      (run (mock ok_response)
         (apiRequest None (lit "GET") (lit "/users/1") [] []
            plain_text_headers)) = [(url, options)] /\
    forall name,
      Obj.get name (RequestInit.headers options) =
      match Obj.get name plain_text_headers with
      | Some value => Some value
      | None => Obj.get name [(lit "Content-Type", lit "application/json")]
      end.
Proof.
  split; [reflexivity|].
  refine (merged_headers None (mock ok_response) (lit "GET") (lit "/users/1")
            [] [] plain_text_headers _).
  reflexivity.
Defined.

Lemma query_roundtrip_witness :
  search_term <> [] /\
  exists query,
    lit "https://api.my-production-app.com/api/search?q=comfortable+shoes" =
    HONO_DOMAIN None ++ lit "/api" ++ lit "/search" ++ lit "?" ++ query /\
    entries (URLSearchParams.parse query) = search_term.
Proof.
  split; [discriminate|].
  destruct (query_roundtrip None (mock ok_response) (lit "GET")
              (lit "/search") search_term [] []
              (lit "https://api.my-production-app.com/api/search?q=comfortable+shoes")
              (RequestInit.make (lit "GET")
                 [(lit "Content-Type", lit "application/json")] None)
              ltac:(discriminate) eq_refl)
    as (query & Hurl & _ & _ & Hpairs).
  exists query. split; [exact Hurl|]. apply Hpairs. reflexivity.
Defined.

(** The number 10 of [{limit: 10}] comes back as the string [10]. *)
Lemma query_roundtrip_typed_counterexample :
  exists url options,
    requests
      (run (mock ok_response)
         (apiRequest None (lit "GET") (lit "/search") limit_params [] [])) =
    [(url, options)] /\
    url = lit "https://api.my-production-app.com/api/search?limit=10" /\
    entries (URLSearchParams.parse (url_query url)) =
    [(lit "limit", PStr (lit "10"))] /\
    entries (URLSearchParams.parse (url_query url)) <> limit_params.
Proof.
  eexists _, _. split; [reflexivity|]. split; [reflexivity|].
  split; [reflexivity|]. vm_compute. discriminate.
Qed.

Lemma failure_decode_error_witness :
  JSON.parse (Response.text server_error_response) = None /\
  result
    (run (mock server_error_response)
       (apiRequest None (lit "GET") (lit "/users/1") [] [] [])) =
  Rejected SyntaxError.
Proof.
  split; [reflexivity|].
  refine (proj1 (failure_decode_error None (mock server_error_response)
                   (lit "GET") (lit "/users/1") [] [] []
                   (lit "https://api.my-production-app.com/api/users/1")
                   (RequestInit.make (lit "GET")
                      [(lit "Content-Type", lit "application/json")] None)
                   server_error_response _ _ _ _));
    [reflexivity|reflexivity|cbn; lia|reflexivity].
Defined.

Lemma success_decode_error_witness :
  JSON.parse (Response.text empty_response) = None /\
  result
    (run (mock empty_response)
       (apiRequest None (lit "DELETE") (lit "/products/delete-product/7") []
          [] [])) =
  Rejected SyntaxError.
Proof.
  split; [reflexivity|].
  refine (success_decode_error None (mock empty_response)
            (lit "DELETE") (lit "/products/delete-product/7") [] [] []
            (lit "https://api.my-production-app.com/api/products/delete-product/7")
            (RequestInit.make (lit "DELETE")
               [(lit "Content-Type", lit "application/json")] None)
            empty_response _ _ _ _);
    [reflexivity|reflexivity|cbn; lia|reflexivity].
Defined.

Lemma failure_message_without_payload_witness :
  exists message,
    result
      (run (mock not_found_response)
         (apiRequest (Some (lit "development")) (lit "DELETE")
            (lit "/products/delete-product/7") [] [] [])) =
    Rejected (Error message) /\
    includes message (lit "PAYLOAD: undefined") = true.
Proof.
  refine (proj2 (failure_message_without_payload (Some (lit "development"))
                   (mock not_found_response) (lit "DELETE")
                   (lit "/products/delete-product/7") [] [] []
                   (lit "/api/products/delete-product/7")
                   (RequestInit.make (lit "DELETE")
                      [(lit "Content-Type", lit "application/json")] None)
                   not_found_response
                   (JSON.JObj [(lit "error", JSON.JStr (lit "not found"))])
                   _ _ _ _ _));
    [reflexivity|reflexivity|reflexivity|cbn; lia|reflexivity].
Defined.

Lemma query_coercion_witness :
  existsb (fun kv => negb (is_string (snd kv))) search_params = true /\
  exists query,
    lit "/api/search?q=comfortable+shoes&limit=10&offset=0" =
    HONO_DOMAIN (Some (lit "development")) ++ lit "/api" ++ lit "/search" ++
    lit "?" ++ query /\
    query = lit "q=comfortable+shoes&limit=10&offset=0" /\
    entries (URLSearchParams.parse query) =
    [(lit "q", PStr (lit "comfortable shoes")); (lit "limit", PStr (lit "10"));
     (lit "offset", PStr (lit "0"))] /\
    entries (URLSearchParams.parse query) <> search_params.
Proof.
  split; [reflexivity|].
  exact (query_coercion (Some (lit "development")) (mock ok_response)
           (lit "GET") (lit "/search") search_params [] []
           (lit "/api/search?q=comfortable+shoes&limit=10&offset=0")
           (RequestInit.make (lit "GET")
              [(lit "Content-Type", lit "application/json")] None)
           ltac:(discriminate) eq_refl eq_refl).
Defined.

(** * Further properties of the code *)

Module SpreadFacts.
Import Obj.

Section Facts.
Context {V : Type}.
Implicit Types (o : obj V) (k : jsstring) (v : V).

Lemma get_None_iff k o : get k o = None <-> ~ In k (keys o).
Proof.
  induction o as [|[k1 v1] o IH]; simpl.
  - split; [intros _ []|reflexivity].
  - destruct (jsstring_eqb k k1) eqn:E.
    + apply jsstring_eqb_eq in E. subst. split; [discriminate|].
      intros H. exfalso. apply H. now left.
    + apply jsstring_eqb_neq in E. rewrite IH. split.
      * intros H [H1|H1]; [congruence|contradiction].
      * intros H H1. apply H. now right.
Qed.

Lemma keys_replace k v o : keys (replace k v o) = keys o.
Proof.
  induction o as [|[k1 v1] o IH]; [reflexivity|].
  simpl. destruct (jsstring_eqb k k1); simpl; [reflexivity|now rewrite IH].
Qed.

(** The keys after inserting an array index: the old keys, cut in two,
    with the new key between. *)
Lemma keys_insert_index i k v o :
  exists front back,
    keys o = front ++ back /\
    keys (insert_index i k v o) = front ++ k :: back.
Proof.
  induction o as [|[k1 v1] o (front & back & E1 & E2)].
  - now exists [], [].
  - simpl. destruct (array_index k1) as [j|].
    + destruct (j <? i)%N.
      * exists (k1 :: front), back. simpl. now rewrite E1, E2.
      * now exists [], (k1 :: keys o).
    + now exists [], (k1 :: keys o).
Qed.

Lemma keys_define k v o :
  (get k o <> None /\ keys (define k v o) = keys o) \/
  (get k o = None /\
   exists front back,
     keys o = front ++ back /\ keys (define k v o) = front ++ k :: back).
Proof.
  unfold define. destruct (get k o) as [v0|] eqn:G.
  - left. split; [discriminate|apply keys_replace].
  - right. split; [reflexivity|].
    destruct (array_index k) as [i|].
    + apply keys_insert_index.
    + exists (keys o), []. unfold keys. now rewrite map_app, app_nil_r.
Qed.

Lemma In_keys_define k k' v o :
  In k (keys (define k' v o)) <-> k = k' \/ In k (keys o).
Proof.
  destruct (keys_define k' v o) as [[G E]|[G (front & back & E1 & E2)]].
  - rewrite E. split; [now right|]. intros [->|H]; [|exact H].
    destruct (In_dec (list_eq_dec Ascii.ascii_dec) k' (keys o)) as [H|H];
      [exact H|].
    apply get_None_iff in H. contradiction.
  - rewrite E2, E1, !in_app_iff. simpl. intuition congruence.
Qed.

Lemma NoDup_keys_define k v o :
  NoDup (keys o) -> NoDup (keys (define k v o)).
Proof.
  intros H.
  destruct (keys_define k v o) as [[G E]|[G (front & back & E1 & E2)]].
  - now rewrite E.
  - rewrite E2. apply (NoDup_Add (Add_app k front back)).
    rewrite <- E1. split; [exact H|now apply get_None_iff].
Qed.

Lemma In_keys_spread k (target src : obj V) :
  In k (keys (spread target src)) <-> In k (keys target) \/ In k (keys src).
Proof.
  unfold spread. revert target.
  induction src as [|[k1 v1] src IH]; intros target; simpl.
  - intuition.
  - rewrite IH, In_keys_define. simpl. intuition congruence.
Qed.

Lemma NoDup_keys_spread (target src : obj V) :
  NoDup (keys target) -> NoDup (keys (spread target src)).
Proof.
  unfold spread. revert target.
  induction src as [|[k1 v1] src IH]; intros target H; simpl; [exact H|].
  apply IH. now apply NoDup_keys_define.
Qed.

End Facts.
End SpreadFacts.

Lemma forallb_join (p : ascii -> bool) sep parts :
  forallb p sep = true -> Forall (fun part => forallb p part = true) parts ->
  forallb p (JSON.join sep parts) = true.
Proof.
  intros Hsep H. induction H as [|part parts Hp Hparts IH]; [reflexivity|].
  destruct parts as [|next parts]; [exact Hp|].
  change (JSON.join sep (part :: next :: parts))
    with (part ++ sep ++ JSON.join sep (next :: parts)).
  now rewrite !forallb_app, Hp, Hsep, IH.
Qed.

Lemma encode_byte_query_chars c :
  forallb query_char (URLSearchParams.encode_byte c) = true.
Proof. each_byte c; reflexivity. Qed.

Lemma encode_query_chars s :
  forallb query_char (URLSearchParams.encode s) = true.
Proof.
  induction s as [|c s IH]; [reflexivity|].
  unfold URLSearchParams.encode in *. simpl.
  now rewrite forallb_app, encode_byte_query_chars, IH.
Qed.

Lemma toString_query_chars params :
  forallb query_char (URLSearchParams.toString params) = true.
Proof.
  assert (P : forall tuple,
    forallb query_char (URLSearchParams.pair_text tuple) = true).
  { intros tuple. unfold URLSearchParams.pair_text.
    now rewrite !forallb_app, !encode_query_chars. }
  destruct params as [|tuple params]; [reflexivity|].
  rewrite URLFacts.toString_cons, forallb_app, P. simpl.
  induction params as [|x l IH]; [reflexivity|].
  simpl. now rewrite forallb_app, P, IH.
Qed.

Lemma toString_nonempty tuple params :
  URLSearchParams.toString (tuple :: params) <> [].
Proof.
  rewrite URLFacts.toString_cons. unfold URLSearchParams.pair_text.
  intros E. apply app_eq_nil in E as [E _]. apply app_eq_nil in E as [_ E].
  discriminate E.
Qed.

Lemma quote_char_no_control c :
  forallb (fun x => negb (is_control x)) (JSON.quote_char c) = true.
Proof. each_byte c; reflexivity. Qed.

Lemma quote_no_control s :
  forallb (fun x => negb (is_control x)) (JSON.quote s) = true.
Proof.
  unfold JSON.quote. rewrite !forallb_app. simpl.
  rewrite andb_true_r. induction s as [|c s IH]; [reflexivity|].
  simpl. now rewrite forallb_app, quote_char_no_control, IH.
Qed.

Lemma chars_no_control ds :
  forallb (fun x => negb (is_control x)) (Number.chars ds) = true.
Proof.
  induction ds as [|d ds IH]; [reflexivity|].
  simpl. rewrite IH. now destruct d.
Qed.

Lemma toString_no_control n :
  forallb (fun x => negb (is_control x)) (Number.toString n) = true.
Proof.
  destruct n as [|negative sig n]; [reflexivity|].
  unfold Number.toString.
  repeat match goal with
         | |- context [if ?b then _ else _] => destruct b
         | |- context [match ?l with [] => _ | _ :: _ => _ end] => destruct l
         end;
    rewrite ?forallb_app, ?chars_no_control; reflexivity.
Qed.

Lemma no_control_no_newline s :
  forallb (fun x => negb (is_control x)) s = true ->
  mem_char newline s = false.
Proof.
  unfold mem_char. induction s as [|c s IH]; [reflexivity|].
  cbn [forallb existsb]. intros H. apply andb_true_iff in H as [Hc Hs].
  rewrite (IH Hs), orb_false_r. apply Ascii.eqb_neq. intros <-.
  discriminate Hc.
Qed.

(** [JSON.stringify] writes no control character. *)
Lemma stringify_no_control v :
  forallb (fun x => negb (is_control x)) (JSON.stringify v) = true.
Proof.
  induction v as [|b|n|s|elements IH|properties IH] using JSON.json_ind.
  - reflexivity.
  - now destruct b.
  - apply toString_no_control.
  - apply quote_no_control.
  - change (JSON.stringify (JSON.JArr elements))
      with (lit "[" ++ JSON.join (lit ",") (map JSON.stringify elements) ++
            lit "]").
    rewrite !forallb_app. simpl.
    rewrite andb_true_r. apply forallb_join; [reflexivity|].
    now apply Forall_map.
  - change (JSON.stringify (JSON.JObj properties))
      with (lit "{" ++ JSON.join (lit ",") (map JSON.member_text properties) ++
            lit "}").
    rewrite !forallb_app. simpl.
    rewrite andb_true_r. apply forallb_join; [reflexivity|].
    apply Forall_map. eapply Forall_impl; [|exact IH].
    intros [k v] H. unfold JSON.member_text. simpl fst. simpl snd in *.
    now rewrite !forallb_app, quote_no_control, H.
Qed.

Module NumeralFacts.
Import Number.

Lemma to_uint_head p :
  match Pos.to_uint p with
  | Decimal.Nil | Decimal.D0 _ => False
  | _ => True
  end.
Proof.
  pose proof (DecimalPos.Unsigned.to_of (Pos.to_uint p)) as E.
  rewrite DecimalPos.Unsigned.of_to in E. simpl N.to_uint in E.
  pose proof (DecimalPos.Unsigned.to_uint_nonzero p) as Hz.
  destruct (Pos.to_uint p) as [|u|u|u|u|u|u|u|u|u|u] eqn:Eu; try exact I.
  - now apply (DecimalPos.Unsigned.to_uint_nonnil p).
  - unfold Decimal.unorm in E. simpl Decimal.nzhead in E.
    destruct (Decimal.nzhead u) eqn:En.
    + injection E as E'. subst u. now apply Hz.
    + now apply DecimalFacts.nzhead_nonzero in En.
    + discriminate E.
    + discriminate E.
    + discriminate E.
    + discriminate E.
    + discriminate E.
    + discriminate E.
    + discriminate E.
    + discriminate E.
    + discriminate E.
Qed.

Lemma digits_of_N_head p :
  exists d ds, digits_of_N (Npos p) = d :: ds /\ d <> D0.
Proof.
  unfold digits_of_N. simpl N.to_uint.
  pose proof (to_uint_head p) as H.
  destruct (Pos.to_uint p); try contradiction; simpl;
    eexists _, _; (split; [reflexivity|discriminate]).
Qed.

(** Digits are significant digits followed by zeros. *)
Lemma trailing_zeros ds :
  exists sig z,
    ds = sig ++ repeat D0 z /\ (sig = [] \/ last sig D1 <> D0).
Proof.
  induction ds as [|x l (sig & z & E & H)] using rev_ind.
  - exists [], O. split; [reflexivity|now left].
  - destruct (digit_eqb x D0) eqn:Ex.
    + assert (x = D0) by (destruct x; try discriminate Ex; reflexivity).
      subst x. exists sig, (S z). split; [|exact H].
      rewrite E, <- app_assoc. f_equal.
      change [D0] with (repeat D0 1). rewrite <- repeat_app.
      f_equal. lia.
    + exists (l ++ [x]), O. split; [now rewrite app_nil_r|].
      right. rewrite last_last. intros ->. discriminate Ex.
Qed.

(** The string form of a natural number of at most 21 digits is its
    decimal numeral. *)
Lemma toString_of_Z z :
  (0 <= z)%Z -> (length (digits_of_N (Z.to_N z)) <= 21)%nat ->
  toString (of_Z z) = chars (digits_of_N (Z.to_N z)).
Proof.
  intros Hz Hlen. unfold of_Z.
  replace (Z.abs z) with z by lia.
  replace (z <? 0)%Z with false by (symmetry; apply Z.ltb_ge; lia).
  destruct (Z.to_N z) as [|p] eqn:En; [reflexivity|].
  destruct (digits_of_N_head p) as (d & ds & Ed & Hd).
  rewrite Ed in *.
  destruct (trailing_zeros (d :: ds)) as (sig & zs & E & H).
  assert (Hsig : sig_ok sig).
  { destruct sig as [|d' sig'].
    - simpl in E. destruct zs; [discriminate E|]. simpl in E. congruence.
    - injection E as <- _. destruct H as [H|H]; [discriminate H|].
      repeat split; [discriminate|exact Hd|exact H]. }
  rewrite E in *.
  pose proof (NumberFacts.normalize_padded false 0 sig zs
                (Z.of_nat (length (sig ++ repeat D0 zs))) Hsig) as Enorm.
  simpl repeat in Enorm. simpl app in Enorm.
  rewrite length_app, repeat_length in *.
  rewrite Z.sub_0_r in Enorm. rewrite Enorm. unfold toString.
  assert (R1 : (-6 <? Z.of_nat (length sig + zs))%Z &&
               (Z.of_nat (length sig + zs) <=? 21)%Z = true).
  { apply andb_true_iff. split; [apply Z.ltb_lt|apply Z.leb_le]; lia. }
  assert (R2 : (Z.of_nat (length sig) <=? Z.of_nat (length sig + zs))%Z = true).
  { apply Z.leb_le. lia. }
  rewrite R1, R2. simpl app. rewrite NumberFacts.chars_app. unfold zeros.
  replace (Z.to_nat (Z.of_nat (length sig + zs) - Z.of_nat (length sig)))
    with zs by lia.
  reflexivity.
Qed.

End NumeralFacts.

Module WhiteSpaceFacts.
Import JSON.

Lemma skip_ws_app ws s : forallb is_ws ws = true -> skip_ws (ws ++ s) = skip_ws s.
Proof.
  induction ws as [|c ws IH]; [reflexivity|].
  simpl. intros H. apply andb_true_iff in H as [Hc Hws].
  rewrite Hc. now apply IH.
Qed.

Lemma skip_ws_all ws : forallb is_ws ws = true -> skip_ws ws = [].
Proof.
  intros H. rewrite <- (app_nil_r ws). now rewrite skip_ws_app.
Qed.

Lemma parse_value_skip_ws fuel ws s :
  forallb is_ws ws = true ->
  parse_value (S fuel) (ws ++ s) = parse_value (S fuel) s.
Proof.
  intros H. rewrite !FuelFacts.parse_value_step.
  rewrite skip_ws_app by assumption. reflexivity.
Qed.

(** The text of an object is parsed whatever follows it. *)
Lemma parse_object_text properties fuel t :
  wf (JObj properties) = true ->
  (length (stringify (JObj properties)) <= fuel)%nat ->
  parse_value fuel (stringify (JObj properties) ++ t) =
  Some (JObj properties, t).
Proof.
  intros Hwf Hfuel.
  pose proof Hwf as Hwf'. simpl in Hwf'.
  apply andb_true_iff in Hwf' as [Hord Hvalues].
  change (stringify (JObj properties))
    with (lit "{" ++ members_text properties ++ lit "}") in *.
  rewrite !length_app in Hfuel. simpl length in Hfuel.
  destruct fuel as [|fuel]; [lia|].
  simpl app. rewrite <- app_assoc. simpl app.
  destruct properties as [|kv kvs]; [reflexivity|].
  assert (Hall : Forall (fun kv => parses_back (snd kv)) (kv :: kvs)).
  { apply Forall_forall. intros x Hx. apply JSONFacts.parse_value_stringify.
    rewrite forallb_forall in Hvalues. now apply Hvalues. }
  pose proof (JSONFacts.parse_members_text (kv :: kvs) Hall Hvalues
                ltac:(discriminate) fuel t ltac:(lia)) as P.
  assert (E : exists s,
    members_text (kv :: kvs) ++ "}"%char :: t = dquote :: s).
  { unfold members_text. destruct kvs; simpl map;
      rewrite ?JSONFacts.join_one, ?JSONFacts.join_cons; unfold member_text;
      eexists; reflexivity. }
  destruct E as (s & E). rewrite E in *.
  rewrite FuelFacts.parse_value_step. simpl skip_ws. cbv beta iota.
  rewrite P.
  now rewrite (ObjFacts.of_entries_wf _ Hord).
Qed.

(** White space around the text of an object does not change what
    [JSON.parse] returns. *)
Lemma parse_padded_object front back properties :
  wf (JObj properties) = true ->
  forallb is_ws front = true -> forallb is_ws back = true ->
  parse (front ++ stringify (JObj properties) ++ back) =
  Some (JObj properties).
Proof.
  intros Hwf Hfront Hback. unfold parse.
  rewrite parse_value_skip_ws by assumption.
  rewrite parse_object_text.
  - now rewrite skip_ws_all.
  - exact Hwf.
  - rewrite !length_app. lia.
Qed.

End WhiteSpaceFacts.

Section Extras.

Variable NODE_ENV : option jsstring.
Variable fetch : transport.
Variables (method path : jsstring).
Variable queryStringParams : Obj.obj prim.
Variable payload : Obj.obj JSON.json.
Variable additionalHeaders : Obj.obj jsstring.

Lemma console_run :
  console
    (run fetch
       (apiRequest NODE_ENV method path queryStringParams payload
          additionalHeaders)) =
  [LogString (lit "FETCH URL (fetch-request):");
   LogString (request_url NODE_ENV path queryStringParams)] ::
  match
    fetch (request_url NODE_ENV path queryStringParams)
      (request_options method payload additionalHeaders)
  with
  | Rejected _ => []
  | Resolved response =>
      if Response.ok response then []
      else
        [LogString (lit "ERROR RESPONSE:"); LogResponse response] ::
        match Response.json response with
        | Resolved decoded =>
            [[LogString (lit "ERROR RESULT:"); LogJson decoded]]
        | Rejected _ => []
        end
  end.
Proof.
  rewrite apiRequest_unfold. simpl.
  destruct (fetch _ _) as [response|e]; [|reflexivity].
  simpl. destruct (Response.ok response); simpl;
    destruct (Response.json response); reflexivity.
Qed.

Lemma result_run_rejected reason :
  fetch (request_url NODE_ENV path queryStringParams)
    (request_options method payload additionalHeaders) = Rejected reason ->
  result
    (run fetch
       (apiRequest NODE_ENV method path queryStringParams payload
          additionalHeaders)) = Rejected reason.
Proof. intros H. rewrite apiRequest_unfold. simpl. now rewrite H. Qed.

Lemma ok_status response :
  Response.ok response = true <-> 200 <= Response.status response <= 299.
Proof. unfold Response.ok. rewrite andb_true_iff. lia. Qed.

(** X1. A failure of the transport is the failure of the call: the call
    rejects with the reason of [fetch], unwrapped, after the one request
    and the one line it logged before it. *)
Theorem transport_failure url options reason :
  requests
    (run fetch
       (apiRequest NODE_ENV method path queryStringParams payload
          additionalHeaders)) = [(url, options)] ->
  fetch url options = Rejected reason ->
  result
    (run fetch
       (apiRequest NODE_ENV method path queryStringParams payload
          additionalHeaders)) = Rejected reason /\
  console
    (run fetch
       (apiRequest NODE_ENV method path queryStringParams payload
          additionalHeaders)) =
  [[LogString (lit "FETCH URL (fetch-request):"); LogString url]].
Proof.
  intros Hreq Hfetch.
  destruct (the_request _ _ _ _ _ _ _ _ _ Hreq) as [-> ->]. split.
  - now apply result_run_rejected.
  - rewrite console_run, Hfetch. reflexivity.
Qed.

(** X2. The call resolves to a value exactly when the transport answered
    with a status in 200-299 and a body that decodes to this value. *)
Theorem resolves_iff url options value :
  requests
    (run fetch
       (apiRequest NODE_ENV method path queryStringParams payload
          additionalHeaders)) = [(url, options)] ->
  (result
     (run fetch
        (apiRequest NODE_ENV method path queryStringParams payload
           additionalHeaders)) = Resolved value <->
   exists response,
     fetch url options = Resolved response /\
     200 <= Response.status response <= 299 /\
     JSON.parse (Response.text response) = Some value).
Proof.
  intros Hreq. destruct (the_request _ _ _ _ _ _ _ _ _ Hreq) as [-> ->].
  destruct (fetch (request_url NODE_ENV path queryStringParams)
              (request_options method payload additionalHeaders))
    as [response|reason] eqn:Hfetch.
  - rewrite (result_run _ _ _ _ _ _ _ _ Hfetch). unfold Response.json.
    split.
    + intros H. exists response. split; [reflexivity|].
      destruct (Response.ok response) eqn:Hok.
      * split; [now apply ok_status|].
        destruct (JSON.parse (Response.text response)); congruence.
      * destruct (JSON.parse (Response.text response)); discriminate H.
    + intros (r & Hr & Hstatus & Hjson). injection Hr as <-.
      apply ok_status in Hstatus. now rewrite Hstatus, Hjson.
  - rewrite (result_run_rejected _ Hfetch). split; [discriminate|].
    intros (r & Hr & _). discriminate Hr.
Qed.

(** X3. When the transport answered, the call rejects with an [Error]
    exactly when the status is outside 200-299 and the body decodes; the
    message is then the template filled with this answer. *)
Theorem descriptive_error_iff url options response message :
  requests
    (run fetch
       (apiRequest NODE_ENV method path queryStringParams payload
          additionalHeaders)) = [(url, options)] ->
  fetch url options = Resolved response ->
  (result
     (run fetch
        (apiRequest NODE_ENV method path queryStringParams payload
           additionalHeaders)) = Rejected (Error message) <->
   (Response.status response < 200 \/ 299 < Response.status response) /\
   exists decoded,
     JSON.parse (Response.text response) = Some decoded /\
     message = error_message response method url options decoded).
Proof.
  intros Hreq Hfetch. destruct (the_request _ _ _ _ _ _ _ _ _ Hreq) as [-> ->].
  rewrite (result_run _ _ _ _ _ _ _ _ Hfetch). unfold Response.json.
  destruct (Response.ok response) eqn:Hok.
  - apply ok_status in Hok. split.
    + destruct (JSON.parse (Response.text response)); discriminate.
    + intros [Hstatus _]. lia.
  - assert (Hstatus : Response.status response < 200 \/
                      299 < Response.status response).
    { destruct (Z_lt_ge_dec (Response.status response) 200) as [|H1];
        [now left|].
      destruct (Z_lt_ge_dec 299 (Response.status response)) as [|H2];
        [now right|].
      assert (Response.ok response = true) by (apply ok_status; lia).
      congruence. }
    destruct (JSON.parse (Response.text response)) as [decoded|]; split.
    + intros H. injection H as <-. split; [exact Hstatus|].
      now exists decoded.
    + intros (_ & d & Hd & ->). now injection Hd as <-.
    + discriminate.
    + intros (_ & d & Hd & _). discriminate Hd.
Qed.

(** X4. What the call logs when the transport answered: the URL first;
    nothing more on a status in 200-299; otherwise the response, and then
    the decoded body when the body decodes. *)
Theorem console_trace url options response :
  requests
    (run fetch
       (apiRequest NODE_ENV method path queryStringParams payload
          additionalHeaders)) = [(url, options)] ->
  fetch url options = Resolved response ->
  console
    (run fetch
       (apiRequest NODE_ENV method path queryStringParams payload
          additionalHeaders)) =
  [LogString (lit "FETCH URL (fetch-request):"); LogString url] ::
  if (200 <=? Response.status response) && (Response.status response <=? 299)
  then []
  else
    [LogString (lit "ERROR RESPONSE:"); LogResponse response] ::
    match JSON.parse (Response.text response) with
    | Some decoded => [[LogString (lit "ERROR RESULT:"); LogJson decoded]]
    | None => []
    end.
Proof.
  intros Hreq Hfetch. destruct (the_request _ _ _ _ _ _ _ _ _ Hreq) as [-> ->].
  rewrite console_run, Hfetch. unfold Response.json, Response.ok.
  destruct ((200 <=? Response.status response) &&
            (Response.status response <=? 299)); [reflexivity|].
  destruct (JSON.parse (Response.text response)); reflexivity.
Qed.

(** X5. The headers handed to the transport carry every name once: the
    names are [Content-Type] and the names of [additionalHeaders], whatever
    [additionalHeaders] is. *)
Theorem header_names url options :
  requests
    (run fetch
       (apiRequest NODE_ENV method path queryStringParams payload
          additionalHeaders)) = [(url, options)] ->
  NoDup (Obj.keys (RequestInit.headers options)) /\
  forall name,
    In name (Obj.keys (RequestInit.headers options)) <->
    name = lit "Content-Type" \/ In name (Obj.keys additionalHeaders).
Proof.
  intros Hreq. destruct (the_request _ _ _ _ _ _ _ _ _ Hreq) as [_ ->].
  unfold request_options. cbn [RequestInit.headers]. split.
  - apply SpreadFacts.NoDup_keys_spread. repeat constructor. intros [].
  - intros name. rewrite SpreadFacts.In_keys_spread. simpl. intuition.
Qed.

(** X6. With a property in [queryStringParams], the question mark of the
    dispatched URL is followed by a query string that is not empty and is
    made of ASCII letters, digits and [* - . _ % + = &] only. *)
Theorem query_string_characters url options :
  queryStringParams <> [] ->
  requests
    (run fetch
       (apiRequest NODE_ENV method path queryStringParams payload
          additionalHeaders)) = [(url, options)] ->
  exists query,
    url = HONO_DOMAIN NODE_ENV ++ lit "/api" ++ path ++ lit "?" ++ query /\
    query <> [] /\
    forallb query_char query = true.
Proof.
  intros Hne Hreq. destruct (the_request _ _ _ _ _ _ _ _ _ Hreq) as [-> _].
  exists (URLSearchParams.toString
            (URLSearchParams.of_record queryStringParams)).
  split; [|split].
  - unfold request_url. destruct queryStringParams; [congruence|reflexivity].
  - destruct queryStringParams; [congruence|apply toString_nonempty].
  - apply toString_query_chars.
Qed.

(** X7. With a property in [payload], the body handed to the transport is
    one line: it has no control character, whatever the strings of the
    payload hold. *)
Theorem body_single_line url options :
  payload <> [] ->
  requests
    (run fetch
       (apiRequest NODE_ENV method path queryStringParams payload
          additionalHeaders)) = [(url, options)] ->
  exists text,
    RequestInit.body options = Some text /\
    forallb (fun c => negb (is_control c)) text = true /\
    mem_char newline text = false.
Proof.
  intros Hne Hreq. destruct (the_request _ _ _ _ _ _ _ _ _ Hreq) as [_ ->].
  exists (JSON.stringify (JSON.JObj payload)).
  pose proof (stringify_no_control (JSON.JObj payload)) as H.
  split; [|split].
  - unfold request_options. destruct payload; [congruence|reflexivity].
  - exact H.
  - now apply no_control_no_newline.
Qed.

(** X8. In the development build every request is same-origin, starts
    with [/api] and is forwarded by the proxy of the development server to
    port 8787 with its path and query; in any other build the URL is
    absolute, on the production domain, and no proxy rule applies. *)
Theorem build_targets url options :
  requests
    (run fetch
       (apiRequest NODE_ENV method path queryStringParams payload
          additionalHeaders)) = [(url, options)] ->
  (NODE_ENV = Some (lit "development") ->
   starts_with (lit "/api") url = true /\
   proxied url = Some (lit "http://localhost:8787" ++ url)) /\
  (NODE_ENV <> Some (lit "development") ->
   starts_with (lit "https://api.my-production-app.com/api") url = true /\
   proxied url = None).
Proof.
  intros Hreq. destruct (the_request _ _ _ _ _ _ _ _ _ Hreq) as [-> _].
  unfold request_url. split.
  - intros ->. split; reflexivity.
  - intros Hne.
    assert (E : HONO_DOMAIN NODE_ENV = lit "https://api.my-production-app.com").
    { unfold HONO_DOMAIN. destruct NODE_ENV as [env|]; [|reflexivity].
      destruct (jsstring_eqb env (lit "development")) eqn:Eenv; [|reflexivity].
      apply jsstring_eqb_eq in Eenv. congruence. }
    rewrite E. split; reflexivity.
Qed.

(** X10. A transport that answers with a status in 200-299 and the body it
    was sent gives the payload back: the call resolves to the payload. *)
Theorem echo_roundtrip url options response text :
  JSON.wf (JSON.JObj payload) = true ->
  requests
    (run fetch
       (apiRequest NODE_ENV method path queryStringParams payload
          additionalHeaders)) = [(url, options)] ->
  fetch url options = Resolved response ->
  200 <= Response.status response <= 299 ->
  RequestInit.body options = Some text ->
  Response.text response = text ->
  result
    (run fetch
       (apiRequest NODE_ENV method path queryStringParams payload
          additionalHeaders)) = Resolved (JSON.JObj payload).
Proof.
  intros Hwf Hreq Hfetch Hstatus Hbody Htext.
  destruct (the_request _ _ _ _ _ _ _ _ _ Hreq) as [-> ->].
  rewrite (result_run _ _ _ _ _ _ _ _ Hfetch).
  rewrite (proj2 (ok_status _) Hstatus). unfold Response.json.
  assert (Et : text = JSON.stringify (JSON.JObj payload)).
  { unfold request_options in Hbody.
    destruct payload; [discriminate Hbody|]. now injection Hbody. }
  now rewrite Htext, Et, (JSONFacts.parse_stringify _ Hwf).
Qed.

(** X9. On a failed response with a body that decodes, the message starts
    with the decimal numeral of the status (a natural number of at most 21
    digits), a bar and the status text. *)
Theorem status_numeral url options response decoded :
  requests
    (run fetch
       (apiRequest NODE_ENV method path queryStringParams payload
          additionalHeaders)) = [(url, options)] ->
  fetch url options = Resolved response ->
  Response.status response < 200 \/ 299 < Response.status response ->
  0 <= Response.status response ->
  (length (Number.digits_of_N (Z.to_N (Response.status response))) <= 21)%nat ->
  JSON.parse (Response.text response) = Some decoded ->
  exists rest,
    result
      (run fetch
         (apiRequest NODE_ENV method path queryStringParams payload
            additionalHeaders)) =
    Rejected
      (Error
         ([newline] ++ lit "      RESPONSE STATUS: " ++
          Number.chars
            (Number.digits_of_N (Z.to_N (Response.status response))) ++
          lit " | " ++ Response.statusText response ++ [newline] ++ rest)).
Proof.
  intros Hreq Hfetch Hstatus Hnat Hlen Hjson.
  destruct (the_request _ _ _ _ _ _ _ _ _ Hreq) as [-> ->].
  rewrite (result_run _ _ _ _ _ _ _ _ Hfetch).
  rewrite (ok_false _ Hstatus). unfold Response.json. rewrite Hjson.
  unfold error_message.
  rewrite (NumeralFacts.toString_of_Z _ Hnat Hlen).
  eexists. reflexivity.
Qed.

(** X11. White space around the body does not matter: when the transport
    answers with a status in 200-299 and the text of an object with white
    space before and after it, the call resolves to the object. *)
Theorem padded_body url options response front back properties :
  JSON.wf (JSON.JObj properties) = true ->
  forallb JSON.is_ws front = true -> forallb JSON.is_ws back = true ->
  requests
    (run fetch
       (apiRequest NODE_ENV method path queryStringParams payload
          additionalHeaders)) = [(url, options)] ->
  fetch url options = Resolved response ->
  200 <= Response.status response <= 299 ->
  Response.text response =
  front ++ JSON.stringify (JSON.JObj properties) ++ back ->
  result
    (run fetch
       (apiRequest NODE_ENV method path queryStringParams payload
          additionalHeaders)) = Resolved (JSON.JObj properties).
Proof.
  intros Hwf Hfront Hback Hreq Hfetch Hstatus Htext.
  destruct (the_request _ _ _ _ _ _ _ _ _ Hreq) as [-> ->].
  rewrite (result_run _ _ _ _ _ _ _ _ Hfetch).
  rewrite (proj2 (ok_status _) Hstatus). unfold Response.json.
  now rewrite Htext, WhiteSpaceFacts.parse_padded_object.
Qed.

(** X12. A body that is empty, or white space only, does not decode: when
    the transport answers with such a body the call rejects with the
    SyntaxError, on every status. *)
Theorem empty_body_rejects url options response :
  requests
    (run fetch
       (apiRequest NODE_ENV method path queryStringParams payload
          additionalHeaders)) = [(url, options)] ->
  fetch url options = Resolved response ->
  forallb JSON.is_ws (Response.text response) = true ->
  result
    (run fetch
       (apiRequest NODE_ENV method path queryStringParams payload
          additionalHeaders)) = Rejected SyntaxError.
Proof.
  intros Hreq Hfetch Hws.
  destruct (the_request _ _ _ _ _ _ _ _ _ Hreq) as [-> ->].
  rewrite (result_run _ _ _ _ _ _ _ _ Hfetch). unfold Response.json.
  assert (E : JSON.parse (Response.text response) = None).
  { unfold JSON.parse. rewrite FuelFacts.parse_value_step.
    now rewrite (WhiteSpaceFacts.skip_ws_all _ Hws). }
  rewrite E. now destruct (Response.ok response).
Qed.

End Extras.

(** ** The further properties at the examples *)

Lemma transport_failure_witness :
  result
    (run offline (apiRequest None (lit "GET") (lit "/users/1") [] [] [])) =
  Rejected (TransportFailure (lit "Failed to fetch")).
Proof.
  refine (proj1 (transport_failure None offline (lit "GET") (lit "/users/1")
                   [] [] []
                   (lit "https://api.my-production-app.com/api/users/1")
                   (RequestInit.make (lit "GET")
                      [(lit "Content-Type", lit "application/json")] None)
                   (TransportFailure (lit "Failed to fetch")) _ _));
    reflexivity.
Defined.

Lemma resolves_iff_witness :
  result
    (run (mock ok_response)
       (apiRequest None (lit "GET") (lit "/users/1") [] [] [])) =
  Resolved (JSON.JObj user).
Proof.
  refine (proj2 (resolves_iff None (mock ok_response) (lit "GET")
                   (lit "/users/1") [] [] []
                   (lit "https://api.my-production-app.com/api/users/1")
                   (RequestInit.make (lit "GET")
                      [(lit "Content-Type", lit "application/json")] None)
                   (JSON.JObj user) _) _); [reflexivity|].
  exists ok_response. split; [reflexivity|]. split; [cbn; lia|reflexivity].
Defined.

Lemma descriptive_error_iff_witness :
  exists message,
    result
      (run (mock not_found_response)
         (apiRequest None (lit "GET") (lit "/users/999") [] [] [])) =
    Rejected (Error message).
Proof.
  eexists.
  refine (proj2 (descriptive_error_iff None (mock not_found_response)
                   (lit "GET") (lit "/users/999") [] [] []
                   (lit "https://api.my-production-app.com/api/users/999")
                   (RequestInit.make (lit "GET")
                      [(lit "Content-Type", lit "application/json")] None)
                   not_found_response _ _ _) _); [reflexivity|reflexivity|].
  split; [cbn; lia|].
  exists (JSON.JObj [(lit "error", JSON.JStr (lit "not found"))]).
  split; reflexivity.
Defined.

Lemma console_trace_witness :
  console
    (run (mock server_error_response)
       (apiRequest (Some (lit "development")) (lit "GET") (lit "/users/1")
          [] [] [])) =
  [[LogString (lit "FETCH URL (fetch-request):");
    LogString (lit "/api/users/1")];
   [LogString (lit "ERROR RESPONSE:"); LogResponse server_error_response]].
Proof.
  refine (console_trace (Some (lit "development"))
            (mock server_error_response) (lit "GET") (lit "/users/1") [] [] []
            (lit "/api/users/1")
            (RequestInit.make (lit "GET")
               [(lit "Content-Type", lit "application/json")] None)
            server_error_response _ _); reflexivity.
Defined.

Lemma header_names_witness :
  Obj.keys
    (Obj.spread [(lit "Content-Type", lit "application/json")]
       plain_text_headers) = [lit "Content-Type"; lit "Accept"] /\
  NoDup
    (Obj.keys
       (Obj.spread [(lit "Content-Type", lit "application/json")]
          plain_text_headers)).
Proof.
  split; [reflexivity|].
  refine (proj1 (header_names None (mock ok_response) (lit "GET")
                   (lit "/users/1") [] [] plain_text_headers
                   (lit "https://api.my-production-app.com/api/users/1")
                   (RequestInit.make (lit "GET")
                      (Obj.spread
                         [(lit "Content-Type", lit "application/json")]
                         plain_text_headers) None) _)).
  reflexivity.
Defined.

Lemma query_string_characters_witness :
  search_params <> [] /\
  exists query,
    lit "/api/search?q=comfortable+shoes&limit=10&offset=0" =
    HONO_DOMAIN (Some (lit "development")) ++ lit "/api" ++ lit "/search" ++
    lit "?" ++ query /\
    query <> [] /\ forallb query_char query = true.
Proof.
  split; [discriminate|].
  exact (query_string_characters (Some (lit "development")) (mock ok_response)
           (lit "GET") (lit "/search") search_params [] []
           (lit "/api/search?q=comfortable+shoes&limit=10&offset=0")
           (RequestInit.make (lit "GET")
              [(lit "Content-Type", lit "application/json")] None)
           ltac:(discriminate) eq_refl).
Defined.

Lemma body_single_line_witness :
  product <> [] /\
  exists text,
    Some (JSON.stringify (JSON.JObj product)) = Some text /\
    forallb (fun c => negb (is_control c)) text = true /\
    mem_char newline text = false.
Proof.
  split; [discriminate|].
  exact (body_single_line None (mock ok_response) (lit "POST")
           (lit "/products/create-product") [] product []
           (lit "https://api.my-production-app.com/api/products/create-product")
           (RequestInit.make (lit "POST")
              [(lit "Content-Type", lit "application/json")]
              (Some (JSON.stringify (JSON.JObj product))))
           ltac:(discriminate) eq_refl).
Defined.

Lemma build_targets_witness :
  proxied (lit "/api/users/1") = Some (lit "http://localhost:8787/api/users/1").
Proof.
  refine (proj2 (proj1 (build_targets (Some (lit "development"))
                          (mock ok_response) (lit "GET") (lit "/users/1")
                          [] [] [] (lit "/api/users/1")
                          (RequestInit.make (lit "GET")
                             [(lit "Content-Type", lit "application/json")]
                             None) _) _)); reflexivity.
Defined.

Lemma status_numeral_witness :
  exists rest,
    result
      (run (mock not_found_response)
         (apiRequest None (lit "GET") (lit "/users/999") [] [] [])) =
    Rejected
      (Error
         ([newline] ++ lit "      RESPONSE STATUS: " ++ lit "404" ++
          lit " | " ++ lit "Not Found" ++ [newline] ++ rest)).
Proof.
  refine (status_numeral None (mock not_found_response) (lit "GET")
            (lit "/users/999") [] [] []
            (lit "https://api.my-production-app.com/api/users/999")
            (RequestInit.make (lit "GET")
               [(lit "Content-Type", lit "application/json")] None)
            not_found_response
            (JSON.JObj [(lit "error", JSON.JStr (lit "not found"))])
            _ _ _ _ _ _);
    [reflexivity|reflexivity|cbn; lia|cbn; lia|cbn; lia|reflexivity].
Defined.

Lemma echo_roundtrip_witness :
  JSON.wf (JSON.JObj product) = true /\
  result
    (run echo
       (apiRequest None (lit "POST") (lit "/products/create-product") []
          product [])) = Resolved (JSON.JObj product).
Proof.
  split; [reflexivity|].
  refine (echo_roundtrip None echo (lit "POST")
            (lit "/products/create-product") [] product []
            (lit "https://api.my-production-app.com/api/products/create-product")
            (RequestInit.make (lit "POST")
               [(lit "Content-Type", lit "application/json")]
               (Some (JSON.stringify (JSON.JObj product))))
            (Response.make 200 (lit "OK") (JSON.stringify (JSON.JObj product)))
            (JSON.stringify (JSON.JObj product)) _ _ _ _ _ _);
    [reflexivity|reflexivity|reflexivity|cbn; lia|reflexivity|reflexivity].
Defined.

Lemma padded_body_witness :
  forallb JSON.is_ws (lit " ") = true /\
  forallb JSON.is_ws [newline] = true /\
  result
    (run (mock padded_response)
       (apiRequest None (lit "GET") (lit "/users/1") [] [] [])) =
  Resolved (JSON.JObj user).
Proof.
  split; [reflexivity|]. split; [reflexivity|].
  refine (padded_body None (mock padded_response) (lit "GET")
            (lit "/users/1") [] [] []
            (lit "https://api.my-production-app.com/api/users/1")
            (RequestInit.make (lit "GET")
               [(lit "Content-Type", lit "application/json")] None)
            padded_response (lit " ") [newline] user _ _ _ _ _ _ _);
    [reflexivity|reflexivity|reflexivity|reflexivity|reflexivity|cbn; lia
    |reflexivity].
Defined.

Lemma empty_body_rejects_witness :
  result
    (run (mock empty_response)
       (apiRequest None (lit "DELETE") (lit "/products/delete-product/7") []
          [] [])) = Rejected SyntaxError.
Proof.
  refine (empty_body_rejects None (mock empty_response) (lit "DELETE")
            (lit "/products/delete-product/7") [] [] []
            (lit "https://api.my-production-app.com/api/products/delete-product/7")
            (RequestInit.make (lit "DELETE")
               [(lit "Content-Type", lit "application/json")] None)
            empty_response _ _ _); reflexivity.
Defined.

(** ** Paths that are not paths *)


Section PathExtras.

Variable NODE_ENV : option jsstring.
Variable fetch : transport.
Variables (method path : jsstring).
Variable queryStringParams : Obj.obj prim.
Variable payload : Obj.obj JSON.json.
Variable additionalHeaders : Obj.obj jsstring.



End PathExtras.


